(** * Countdown-timer bot: a shallow embedding of [src/index.js]

    The JavaScript module keeps its state in a handful of process-wide
    [Map]s ([activeTimers], [defaultTimes], [timerMessages],
    [timerUpdateThrottle], [messageFlagsForCleanup]) and in the timeouts
    and intervals it has armed in the host event loop.  The embedding
    threads one record holding all of them through every function.

    Conventions.
    - JavaScript numbers that hold millisecond quantities are modelled as
      [Z]; the source only adds, subtracts and compares them, which is
      exact on doubles below 2^53.  What [parseTime] computes from a
      string is modelled as the double it is ([number]), with the
      rounding of [parseInt] and of each multiplication and with
      [Infinity]; a handler that would pass [Infinity] on to the timer
      registry stops there with an outcome of its own.
    - Every call of [Date.now()] is an explicit argument of the embedded
      function, in the order in which the source performs the calls.
    - A [Map] keyed by a Discord id is a [gmap string _]; iteration order
      is never observable in the functions embedded here.
    - A handle returned by [setTimeout]/[setInterval] is a [positive];
      [null]/[undefined] is [None], so the source's truthiness tests on
      handles are tests for [Some].
    - A timer object is shared between [activeTimers] and the closures the
      source arms.  Every mutation of a timer happens synchronously while
      it is resident, so it is modelled by rewriting the map entry. *)

From Stdlib Require Import ZArith Lia Ascii String List Bool DecimalString.
From stdpp Require Import base option list strings gmap fin_maps.

Local Open Scope Z_scope.

(** ** Constants ([src/index.js] lines 50-51, [src/config.js]) *)

Definition MAX_TIMERS_PER_GUILD : nat := 10.
Definition MAX_TOTAL_TIMERS : nat := 100.
Definition MIN_TIMER_DURATION : Z := 1000.
Definition MAX_TIMER_DURATION : Z := 24 * 60 * 60 * 1000.
Definition FALLBACK_DURATION : Z := 5 * 60 * 1000.

(** ** The numbers of [parseTime] *)

(** [parseInt] and the products of [parseTime] are IEEE 754 binary64
    values.  On a string of digits they are non-negative integers with a
    significand of 53 bits, or [Infinity]. *)
Inductive number :=
  | Finite (z : Z)
  | Infinity.

Coercion Finite : Z >-> number.

(** An integer where an optional [number] is expected is that finite
    number: [Some]'s argument is read with the expected type in hand. *)
Arguments Some {A}%_type_scope & a.

(** The integer with a 53-bit significand nearest to [z], ties to the
    even significand, for [0 ≤ z]; integers below [2 ^ 53] are such
    values. *)
Definition round53 (z : Z) : Z :=
  if z <? 2 ^ 53 then z
  else
    let e := Z.log2 z - 52 in
    let q := Z.shiftr z e in
    let r := z - Z.shiftl q e in
    let half := Z.shiftl 1 (e - 1) in
    let q' := if (half <? r) || ((r =? half) && Z.odd q) then q + 1 else q in
    Z.shiftl q' e.

(** The Number value of a non-negative integer: what rounds to
    [2 ^ 1024] or more is [Infinity]. *)
Definition to_number (z : Z) : number :=
  let r := round53 z in
  if r <? 2 ^ 1024 then Finite r else Infinity.

(** [a * b] for a positive integer constant [b]. *)
Definition number_mul (a : number) (b : Z) : number :=
  match a with
  | Finite x => to_number (x * b)
  | Infinity => Infinity
  end.

(** ** Duration strings: [parseTime] (lines 579-597) *)

Module Duration.

(** [\d] without the [u] flag: the ten ASCII digits. *)
Definition is_digit (c : ascii) : bool :=
  ((48 <=? Z.of_N (N_of_ascii c)) && (Z.of_N (N_of_ascii c) <=? 57))%Z.

Definition digit_val (c : ascii) : Z := Z.of_N (N_of_ascii c) - 48.

(** [String.prototype.toLowerCase] on one ASCII character. *)
Definition toLowerCase (c : ascii) : ascii :=
  let n := N_of_ascii c in
  if ((65 <=? n) && (n <=? 90))%N then ascii_of_N (n + 32) else c.

(** The character class [[smh]] under the [i] flag. *)
Definition is_unit (c : ascii) : bool :=
  match toLowerCase c with
  | "s"%char | "m"%char | "h"%char => true
  | _ => false
  end.

Fixpoint all_digits (s : string) : bool :=
  match s with
  | EmptyString => true
  | String c r => is_digit c && all_digits r
  end.

(** [timeStr.match(/^(\d+)([smh])$/i)]: the two capture groups, or
    [None] when the pattern does not match the whole string. *)
Fixpoint match_time (s : string) : option (string * ascii) :=
  match s with
  | EmptyString => None
  | String c r =>
      if is_digit c then
        match r with
        | EmptyString => None
        | String u EmptyString =>
            if is_unit u then Some (String c EmptyString, u)
            else None
        | String _ (String _ _) =>
            match match_time r with
            | Some (ds, u) => Some (String c ds, u)
            | None => None
            end
        end
      else None
  end.

(** The integer that a string of decimal digits denotes. *)
Fixpoint parseInt_from (acc : Z) (s : string) : Z :=
  match s with
  | EmptyString => acc
  | String c r => parseInt_from (10 * acc + digit_val c) r
  end.

(** [parseInt] on a string of decimal digits: the Number value of the
    integer they denote. *)
Definition parseInt (s : string) : number := to_number (parseInt_from 0 s).

(** [defaultTimes.get(guildId) || 5 * 60 * 1000]: a missing entry and
    a stored [0] are both falsy. *)
Definition default_for (defaultTimes : gmap string Z) (guildId : string) : Z :=
  match defaultTimes !! guildId with
  | Some d => if d =? 0 then FALLBACK_DURATION else d
  | None => FALLBACK_DURATION
  end.

(** [timeStr] is [None] for [null]/[undefined]; the empty string is
    falsy as well.  The result is [None] for JavaScript's [null].  Every
    multiplication rounds. *)
Definition parseTime (timeStr : option string) (guildId : string)
    (defaultTimes : gmap string Z) : option number :=
  match timeStr with
  | None | Some EmptyString => Some (Finite (default_for defaultTimes guildId))
  | Some s =>
      match match_time s with
      | None => None
      | Some (ds, u) =>
          let value := parseInt ds in
          match toLowerCase u with
          | "s"%char => Some (number_mul value 1000)
          | "m"%char => Some (number_mul (number_mul value 60) 1000)
          | "h"%char => Some (number_mul (number_mul (number_mul value 60) 60) 1000)
          | _ => None
          end
      end
  end.

(** The grammar [^(\d+)(s|m|h)$], case-insensitive, stated on its own. *)
Definition unit_factor (u : ascii) : option Z :=
  match u with
  | "s"%char | "S"%char => Some 1000
  | "m"%char | "M"%char => Some 60000
  | "h"%char | "H"%char => Some 3600000
  | _ => None
  end.

(** The product of [value] and the factor [f] of a unit as [parseTime]
    computes it: one multiplication after the other, each rounded. *)
Definition times_factor (value : number) (f : Z) : number :=
  if f =? 1000 then number_mul value 1000
  else if f =? 60000 then number_mul (number_mul value 60) 1000
  else number_mul (number_mul (number_mul value 60) 60) 1000.

Definition in_grammar (s : string) : Prop :=
  ∃ ds u, s = (ds ++ String u EmptyString)%string
          ∧ ds ≠ EmptyString
          ∧ all_digits ds = true
          ∧ is_Some (unit_factor u).

End Duration.

(** ** The state of the module *)

(** A scheduled closure.  The source arms five different closures; each
    is named by the place that creates it and carries the variables it
    captured. *)
Inductive callback :=
  | RefreshCb (channelId : string)                 (* lines 783, 2158 *)
  | WarningCb (channelId : string)                 (* line 720 *)
  | ExpiryCb (channelId guildId : string)          (* line 793 *)
  | ResumedExpiryCb (channelId guildId : string).  (* line 2164 *)

(** An entry of the host's timer queue: [setInterval] entries repeat. *)
Record pending := mkPending {
  pcallback : callback;
  pdelay : Z;
  prepeat : bool
}.

(** The timer object built at lines 754-764, with the properties that
    later code attaches to it; a property that is absent is [None]. *)
Record timer := mkTimer {
  channelId : string;
  guildId : string;
  startTime : Z;
  endTime : Z;
  duration : Z;
  message : string;
  timeoutId : option positive;
  updateIntervalId : option positive;
  isPaused : bool;
  warningTimeoutId : option positive;
  warningTime : option Z;
  warningRemainingTime : option Z;
  pausedAt : option Z;
  pausedRemainingTime : option Z
}.

(** The value stored in [timerMessages]: [{ message }], the message
    being named by its id. *)
Record messageData := mkMessageData { mdMessage : option string }.

Record state := mkState {
  activeTimers : gmap string timer;
  defaultTimes : gmap string Z;
  timerMessages : gmap string (gmap string messageData);
  timerUpdateThrottle : gmap string Z;
  messageFlagsForCleanup : gmap string (gmap string string);
  scheduled : gmap positive pending;
  nextHandle : positive
}.

Definition initial_state : state :=
  mkState ∅ ∅ ∅ ∅ ∅ ∅ 1%positive.

(** Field updates. *)
Definition set_activeTimers (f : gmap string timer → gmap string timer) (st : state) : state :=
  mkState (f (activeTimers st)) (defaultTimes st) (timerMessages st)
    (timerUpdateThrottle st) (messageFlagsForCleanup st) (scheduled st) (nextHandle st).
Definition set_defaultTimes (f : gmap string Z → gmap string Z) (st : state) : state :=
  mkState (activeTimers st) (f (defaultTimes st)) (timerMessages st)
    (timerUpdateThrottle st) (messageFlagsForCleanup st) (scheduled st) (nextHandle st).
Definition set_timerMessages
    (f : gmap string (gmap string messageData) → gmap string (gmap string messageData))
    (st : state) : state :=
  mkState (activeTimers st) (defaultTimes st) (f (timerMessages st))
    (timerUpdateThrottle st) (messageFlagsForCleanup st) (scheduled st) (nextHandle st).
Definition set_timerUpdateThrottle (f : gmap string Z → gmap string Z) (st : state) : state :=
  mkState (activeTimers st) (defaultTimes st) (timerMessages st)
    (f (timerUpdateThrottle st)) (messageFlagsForCleanup st) (scheduled st) (nextHandle st).
Definition set_messageFlagsForCleanup
    (f : gmap string (gmap string string) → gmap string (gmap string string))
    (st : state) : state :=
  mkState (activeTimers st) (defaultTimes st) (timerMessages st)
    (timerUpdateThrottle st) (f (messageFlagsForCleanup st)) (scheduled st) (nextHandle st).
Definition set_scheduled (f : gmap positive pending → gmap positive pending) (st : state) : state :=
  mkState (activeTimers st) (defaultTimes st) (timerMessages st)
    (timerUpdateThrottle st) (messageFlagsForCleanup st) (f (scheduled st)) (nextHandle st).

Definition with_timeoutId (h : option positive) (t : timer) : timer :=
  mkTimer (channelId t) (guildId t) (startTime t) (endTime t) (duration t) (message t)
    h (updateIntervalId t) (isPaused t) (warningTimeoutId t) (warningTime t)
    (warningRemainingTime t) (pausedAt t) (pausedRemainingTime t).
Definition with_updateIntervalId (h : option positive) (t : timer) : timer :=
  mkTimer (channelId t) (guildId t) (startTime t) (endTime t) (duration t) (message t)
    (timeoutId t) h (isPaused t) (warningTimeoutId t) (warningTime t)
    (warningRemainingTime t) (pausedAt t) (pausedRemainingTime t).
Definition with_warningTimeoutId (h : option positive) (t : timer) : timer :=
  mkTimer (channelId t) (guildId t) (startTime t) (endTime t) (duration t) (message t)
    (timeoutId t) (updateIntervalId t) (isPaused t) h (warningTime t)
    (warningRemainingTime t) (pausedAt t) (pausedRemainingTime t).
Definition with_isPaused (b : bool) (t : timer) : timer :=
  mkTimer (channelId t) (guildId t) (startTime t) (endTime t) (duration t) (message t)
    (timeoutId t) (updateIntervalId t) b (warningTimeoutId t) (warningTime t)
    (warningRemainingTime t) (pausedAt t) (pausedRemainingTime t).
Definition with_endTime (e : Z) (t : timer) : timer :=
  mkTimer (channelId t) (guildId t) (startTime t) e (duration t) (message t)
    (timeoutId t) (updateIntervalId t) (isPaused t) (warningTimeoutId t) (warningTime t)
    (warningRemainingTime t) (pausedAt t) (pausedRemainingTime t).
Definition with_warningTime (w : option Z) (t : timer) : timer :=
  mkTimer (channelId t) (guildId t) (startTime t) (endTime t) (duration t) (message t)
    (timeoutId t) (updateIntervalId t) (isPaused t) (warningTimeoutId t) w
    (warningRemainingTime t) (pausedAt t) (pausedRemainingTime t).
Definition with_warningRemainingTime (w : option Z) (t : timer) : timer :=
  mkTimer (channelId t) (guildId t) (startTime t) (endTime t) (duration t) (message t)
    (timeoutId t) (updateIntervalId t) (isPaused t) (warningTimeoutId t) (warningTime t)
    w (pausedAt t) (pausedRemainingTime t).
Definition with_pausedAt (p : option Z) (t : timer) : timer :=
  mkTimer (channelId t) (guildId t) (startTime t) (endTime t) (duration t) (message t)
    (timeoutId t) (updateIntervalId t) (isPaused t) (warningTimeoutId t) (warningTime t)
    (warningRemainingTime t) p (pausedRemainingTime t).
Definition with_pausedRemainingTime (p : option Z) (t : timer) : timer :=
  mkTimer (channelId t) (guildId t) (startTime t) (endTime t) (duration t) (message t)
    (timeoutId t) (updateIntervalId t) (isPaused t) (warningTimeoutId t) (warningTime t)
    (warningRemainingTime t) (pausedAt t) p.

(** ** The host's timer queue *)

(** [setTimeout(fn, delay)] and [setInterval(fn, delay)]: a fresh handle
    is returned and the closure is queued. *)
Definition arm (cb : callback) (delay : Z) (repeating : bool) (st : state)
    : positive * state :=
  let h := nextHandle st in
  (h, mkState (activeTimers st) (defaultTimes st) (timerMessages st)
        (timerUpdateThrottle st) (messageFlagsForCleanup st)
        (<[h := mkPending cb delay repeating]> (scheduled st)) (Pos.succ h)).

Definition setTimeout (cb : callback) (delay : Z) (st : state) : positive * state :=
  arm cb delay false st.
Definition setInterval (cb : callback) (delay : Z) (st : state) : positive * state :=
  arm cb delay true st.

(** [clearTimeout(h)] and [clearInterval(h)]; a [null] handle is ignored
    by the host. *)
Definition clearHandle (h : option positive) (st : state) : state :=
  match h with
  | Some i => set_scheduled (delete i) st
  | None => st
  end.

Definition is_armed (h : option positive) (st : state) : Prop :=
  match h with
  | Some i => is_Some (scheduled st !! i)
  | None => False
  end.

(** ** Capacity: [canCreateTimer] (lines 54-71) *)

(** The [for ... of activeTimers] loop that increments [guildTimerCount]. *)
Definition guildTimerCount (g : string) (m : gmap string timer) : nat :=
  map_fold (λ _ t n, if decide (guildId t = g) then S n else n) 0%nat m.

Definition canCreateTimer (g : string) (st : state) : bool :=
  if decide (MAX_TOTAL_TIMERS ≤ size (activeTimers st))%nat then false
  else if decide (MAX_TIMERS_PER_GUILD ≤ guildTimerCount g (activeTimers st))%nat then false
  else true.

(** ** Cleanup helpers *)

(** Deleting [channelId] from the inner map of [guildId] and dropping the
    inner map when it becomes empty (lines 810-815, 844-849, 567-572). *)
Definition forget_message (g c : string)
    (tm : gmap string (gmap string messageData)) : gmap string (gmap string messageData) :=
  match tm !! g with
  | Some inner =>
      let inner' := delete c inner in
      if decide (size inner' = 0%nat) then delete g tm else <[g := inner']> tm
  | None => tm
  end.

(** [safeCleanupTimer] (lines 239-248). *)
Definition safeCleanupTimer (t : timer) (st : state) : state :=
  let st1 := clearHandle (timeoutId t) st in
  let st2 := clearHandle (warningTimeoutId t) st1 in
  let st3 := clearHandle (updateIntervalId t) st2 in
  if decide (channelId t = EmptyString) then st3
  else set_timerUpdateThrottle (delete (channelId t)) st3.

(** [stopAllTimersInChannel] (lines 317-340): the number of timers
    stopped and the new state. *)
Definition stopAllTimersInChannel (c : string) (st : state) : nat * state :=
  match activeTimers st !! c with
  | Some t =>
      let st1 := clearHandle (updateIntervalId t) st in
      let st2 := clearHandle (timeoutId t) st1 in
      (1%nat, set_activeTimers (delete c) st2)
  | None => (0%nat, st)
  end.

(** [setMessageFlag] (lines 86-92). *)
Definition setMessageFlag (g c mid : string) (st : state) : state :=
  set_messageFlagsForCleanup
    (λ mf, <[g := <[c := mid]> (default ∅ (mf !! g))]> mf) st.

(** ** What the module sends to its collaborators *)

Inductive sink_event :=
  | EditStatus (messageId channel : string) (durationMs remaining : Z)
  | SendFinished (channel : string)
  | PlaySound (channel file : string).

(** ** The refresh tick: [updateTimerMessage] (lines 523-576) *)

(** Truthiness of a numeric property that may be absent. *)
Definition truthyZ (o : option Z) : bool :=
  match o with
  | Some v => negb (v =? 0)
  | None => false
  end.



(** ** The warning scheduler: [scheduleWarning] (lines 707-728) *)

(** [nowW] is the reading of line 716.  The timer is returned with its
    [warningTimeoutId] as the source leaves it. *)
Definition scheduleWarning (t : timer) (channel : string) (nowW : Z) (st : state)
    : timer * state :=
  let '(t1, st1) :=
    match warningTimeoutId t with
    | Some h => (with_warningTimeoutId None t, clearHandle (Some h) st)
    | None => (t, st)
    end in
  let warningTime_ := default (endTime t1 - 60000) (warningTime t1) in
  let remainingToWarning := warningTime_ - nowW in
  if (0 <? remainingToWarning) && (60000 <? duration t1) then
    let '(h, st2) := setTimeout (WarningCb channel) remainingToWarning st1 in
    (with_warningTimeoutId (Some h) t1, st2)
  else (t1, st1).

(** ** [startTimer] (lines 731-819) *)

(** [timerMessage] is the id of the status message, when there is one
    ([None] for the default [null]); [now] is the reading of line 750 and
    [nowW] the one taken inside [scheduleWarning].  The object is stored
    at line 767 and its handles and warning fields are set afterwards
    through the same reference: the last insert writes them back. *)
Definition startTimer (c g : string) (duration_ : Z) (message_ : string)
    (timerMessage : option string) (now nowW : Z) (st : state)
    : option timer * state :=
  if negb (canCreateTimer g st) then (None, st)
  else
    let isNewTimer := bool_decide (activeTimers st !! c = None) in
    let st1 :=
      match activeTimers st !! c with
      | Some oldTimer => safeCleanupTimer oldTimer st
      | None => st
      end in
    let startTime_ := now in
    let endTime_ := startTime_ + duration_ in
    let timer0 :=
      mkTimer c g startTime_ endTime_ duration_ message_
        None None false None None None None None in
    let st2 := set_activeTimers (<[c := timer0]>) st1 in
    let st3 :=
      match timerMessage with
      | Some mid =>
          let st' :=
            set_timerMessages
              (λ tm, <[g := <[c := mkMessageData (Some mid)]> (default ∅ (tm !! g))]> tm)
              st2 in
          if isNewTimer then setMessageFlag g c mid st' else st'
      | None => st2
      end in
    let '(hI, st4) := setInterval (RefreshCb c) 1000 st3 in
    let timer1 := with_updateIntervalId (Some hI) timer0 in
    let timer2 := with_warningTime (Some (endTime_ - 60000)) timer1 in
    let timer3 :=
      with_warningRemainingTime
        (if 60000 <? duration_ then Some (duration_ - 60000) else None) timer2 in
    let '(timer4, st5) := scheduleWarning timer3 c nowW st4 in
    let '(hT, st6) := setTimeout (ExpiryCb c g) duration_ st5 in
    let timer5 := with_timeoutId (Some hT) timer4 in
    (Some timer5, set_activeTimers (<[c := timer5]>) st6).

(** ** [stopTimer] (lines 822-853) *)

Record timerInfo := mkTimerInfo {
  info_message : string;
  info_duration : Z;
  remainingTime : Z;
  info_guildId : string
}.

(** [None] is the source's [false]. *)
Definition stopTimer (c : string) (now : Z) (st : state) : option timerInfo * state :=
  match activeTimers st !! c with
  | Some t =>
      let remainingTime_ := endTime t - now in
      let info :=
        mkTimerInfo (message t) (duration t) (Z.max 0 remainingTime_) (guildId t) in
      let st1 := clearHandle (timeoutId t) st in
      let st2 := clearHandle (warningTimeoutId t) st1 in
      let st3 := clearHandle (updateIntervalId t) st2 in
      let st4 := set_activeTimers (delete c) st3 in
      let st5 := set_timerUpdateThrottle (delete c) st4 in
      let st6 :=
        if decide (guildId t = EmptyString) then st5
        else set_timerMessages (forget_message (guildId t) c) st5 in
      (Some info, st6)
  | None => (None, st)
  end.

(** ** The pause button: [timer_pause] (lines 2108-2265) *)

Inductive pause_outcome :=
  | NoActiveTimer
  | TimerExpired
  | Resumed
  | Paused.

(** The resume branch (lines 2131-2216): [now] is the reading of line
    2149, [nowW] the one taken inside [scheduleWarning]. *)
Definition resume_branch (c g : string) (t : timer) (now nowW : Z) (st : state)
    : pause_outcome * state :=
  let remainingTime_ :=
    if truthyZ (pausedRemainingTime t) then default 0 (pausedRemainingTime t) else 0 in
  if remainingTime_ <=? 0 then (TimerExpired, set_activeTimers (delete c) st)
  else
    let t1 := with_isPaused false t in
    let t2 := with_endTime (now + remainingTime_) t1 in
    let t3 := with_warningTime (Some (endTime t2 - 60000)) t2 in
    let t4 :=
      with_warningRemainingTime
        (if 60000 <? remainingTime_ then Some (remainingTime_ - 60000) else None) t3 in
    let t5 := with_pausedAt None t4 in
    let t6 := with_pausedRemainingTime None t5 in
    let '(hI, st1) := setInterval (RefreshCb c) 1000 st in
    let t7 := with_updateIntervalId (Some hI) t6 in
    let '(hT, st2) := setTimeout (ResumedExpiryCb c g) remainingTime_ st1 in
    let t8 := with_timeoutId (Some hT) t7 in
    let '(t9, st3) := scheduleWarning t8 c nowW st2 in
    (Resumed, set_activeTimers (<[c := t9]>) st3).

(** The pause branch (lines 2217-2264): [now], [nowAt] and [nowW] are
    the readings of lines 2220, 2223 and 2225. *)
Definition pause_branch (c : string) (t : timer) (now nowAt nowW : Z) (st : state)
    : pause_outcome * state :=
  let t1 := with_isPaused true t in
  let remainingTime_ := endTime t1 - now in
  let t2 := with_pausedAt (Some nowAt) t1 in
  let t3 := with_pausedRemainingTime (Some (Z.max 0 remainingTime_)) t2 in
  let t4 := with_warningRemainingTime (Some ((endTime t3 - 60000) - nowW)) t3 in
  let st1 := clearHandle (timeoutId t4) st in
  let '(t5, st2) :=
    match warningTimeoutId t4 with
    | Some h => (with_warningTimeoutId None t4, clearHandle (Some h) st1)
    | None => (t4, st1)
    end in
  let st3 := clearHandle (updateIntervalId t5) st2 in
  (Paused, set_activeTimers (<[c := t5]>) st3).

(** The handler after its permission checks.  [r1], [r2], [r3] are the
    clock readings in the order the chosen branch takes them (the resume
    branch takes two). *)
Definition timer_pause (c g : string) (r1 r2 r3 : Z) (st : state)
    : pause_outcome * state :=
  match activeTimers st !! c with
  | None => (NoActiveTimer, st)
  | Some t =>
      if isPaused t then resume_branch c g t r1 r2 st
      else pause_branch c t r1 r2 r3 st
  end.

(** ** The closures the module arms *)

(** The body of a one-shot closure.  [inVoice] stands for
    [channel.guild.members.me.voice.channel] being set. *)
Definition run_callback (cb : callback) (inVoice : bool) (st : state)
    : list sink_event * state :=
  match cb with
  | ExpiryCb c g =>
      (SendFinished c :: (if inVoice then [PlaySound c "end.mp3"] else []),
       set_timerMessages (forget_message g c)
         (set_timerUpdateThrottle (delete c)
            (set_activeTimers (delete c) st)))
  | ResumedExpiryCb c g =>
      (SendFinished c :: (if inVoice then [PlaySound c "end.mp3"] else []),
       set_timerMessages (forget_message g c)
         (set_activeTimers (delete c) st))
  | WarningCb c => ([PlaySound c "cri.mp3"], st)
  | RefreshCb _ => ([], st)
  end.

(** The host fires the timeout [h]: nothing happens when it has been
    cleared; otherwise it leaves the queue and its closure runs.  (The
    repeating refresh closure is [updateTimerMessage], driven directly.) *)
Definition fire (h : positive) (inVoice : bool) (st : state) : list sink_event * state :=
  match scheduled st !! h with
  | None => ([], st)
  | Some p =>
      if prepeat p then ([], st)
      else run_callback (pcallback p) inVoice (set_scheduled (delete h) st)
  end.

(** ** Command surfaces *)

(** [formatTime] (lines 600-612). *)
Definition show_Z (z : Z) : string := NilZero.string_of_int (Z.to_int z).

Definition formatTime (ms : Z) : string :=
  let seconds := ms / 1000 in
  let minutes := seconds / 60 in
  let hours := minutes / 60 in
  if 0 <? hours then
    (show_Z hours ++ "h " ++ show_Z (Z.rem minutes 60) ++ "m "
       ++ show_Z (Z.rem seconds 60) ++ "s")%string
  else if 0 <? minutes then
    (show_Z minutes ++ "m " ++ show_Z (Z.rem seconds 60) ++ "s")%string
  else (show_Z seconds ++ "s")%string.

Inductive start_outcome :=
  | InvalidTimeFormat
  | TimerTooShort
  | TimerTooLong
  | LimitReached
  | Started (t : timer)
  | InfiniteDuration.

(** What the three start surfaces do to an occupied channel before they
    call [startTimer] (lines 1152-1158, 1665-1671, 2072-2078). *)
Definition clear_old_timeouts (c : string) (st : state) : state :=
  match activeTimers st !! c with
  | Some oldTimer =>
      clearHandle (warningTimeoutId oldTimer) (clearHandle (timeoutId oldTimer) st)
  | None => st
  end.

Definition started (r : option timer * state) : start_outcome * state :=
  match r with
  | (Some t, st) => (Started t, st)
  | (None, st) => (LimitReached, st)
  end.

(** The [!cs] message command (lines 1120-1190); [args] is
    [content.slice(3).trim()] and [reply] the id of the bot's reply.
    [Infinity < 1000] is false and [Infinity > 86400000] is true. *)
Definition cs_command (c g : string) (args reply : string) (now nowW : Z) (st : state)
    : start_outcome * state :=
  match Duration.parseTime (Some args) g (defaultTimes st) with
  | None => (InvalidTimeFormat, st)
  | Some Infinity => (TimerTooLong, st)
  | Some (Finite duration_) =>
      if duration_ <? 1000 then (TimerTooShort, st)
      else if 24 * 60 * 60 * 1000 <? duration_ then (TimerTooLong, st)
      else
        let st1 := clear_old_timeouts c st in
        let timerMessage :=
          match args with
          | EmptyString => "Timer (default)"%string
          | _ => ("Timer: " ++ args)%string
          end in
        started (startTimer c g duration_ timerMessage (Some reply) now nowW st1)
  end.

(** The [/timer] slash command (lines 1652-1696).  [null <= 0] holds in
    JavaScript, so an unparsable string takes the rejection branch;
    [Infinity <= 0] does not, so [startTimer] is called with [Infinity].
    The timer object of this embedding holds integers: the embedding
    stops at that call, with the state in which it is made and the
    outcome [InfiniteDuration]. *)
Definition slash_timer (c g : string) (durationStr : option string) (reply : string)
    (now nowW : Z) (st : state) : start_outcome * state :=
  let duration_ :=
    match durationStr with
    | None | Some EmptyString => Some (Finite (Duration.default_for (defaultTimes st) g))
    | Some _ => Duration.parseTime durationStr g (defaultTimes st)
    end in
  match duration_ with
  | None => (InvalidTimeFormat, st)
  | Some Infinity =>
      let st1 := clear_old_timeouts c st in
      let st2 :=
        set_timerMessages
          (λ tm, <[g := <[c := mkMessageData (Some reply)]> (default ∅ (tm !! g))]> tm)
          st1 in
      (InfiniteDuration, st2)
  | Some (Finite d) =>
      if d <=? 0 then (InvalidTimeFormat, st)
      else
        let st1 := clear_old_timeouts c st in
        let timerMessage :=
          match durationStr with
          | None | Some EmptyString => "Timer (default)"%string
          | Some _ => ("Timer (" ++ formatTime d ++ ")")%string
          end in
        let st2 :=
          set_timerMessages
            (λ tm, <[g := <[c := mkMessageData (Some reply)]> (default ∅ (tm !! g))]> tm)
            st1 in
        started (startTimer c g d timerMessage (Some reply) now nowW st2)
  end.

(** The start button (lines 2057-2106); [messageToStore] is [None] when
    the reply cannot be fetched. *)
Definition timer_start (c g : string) (messageToStore : option string) (now nowW : Z)
    (st : state) : start_outcome * state :=
  let defaultTime := Duration.default_for (defaultTimes st) g in
  let st1 := clear_old_timeouts c st in
  started (startTimer c g defaultTime "Timer (default)" messageToStore now nowW st1).

(** The three places that write [defaultTimes]. *)
Inductive set_outcome :=
  | SetInvalid
  | SetTooShort
  | SetTooLong
  | DefaultSet (d : Z)
  | SetInfinite.

(** [!set cs] (lines 1256-1296). *)
Definition set_cs_command (g : string) (args : string) (st : state) : set_outcome * state :=
  match Duration.parseTime (Some args) g (defaultTimes st) with
  | None => (SetInvalid, st)
  | Some Infinity => (SetTooLong, st)
  | Some (Finite d) =>
      if d <? 1000 then (SetTooShort, st)
      else if 24 * 60 * 60 * 1000 <? d then (SetTooLong, st)
      else (DefaultSet d, set_defaultTimes (<[g := d]>) st)
  end.

(** [/set-default] (lines 1698-1723).  [Infinity] passes the test
    [duration <= 0] and would be stored; [defaultTimes] of this
    embedding holds integers, so the embedding stops before the store,
    with the outcome [SetInfinite]. *)
Definition slash_set_default (g : string) (timeStr : option string) (st : state)
    : set_outcome * state :=
  match Duration.parseTime timeStr g (defaultTimes st) with
  | None => (SetInvalid, st)
  | Some Infinity => (SetInfinite, st)
  | Some (Finite d) =>
      if d <=? 0 then (SetInvalid, st)
      else (DefaultSet d, set_defaultTimes (<[g := d]>) st)
  end.

(** The quick-time buttons (lines 3467-3482): [timeMap[customId]]. *)
Definition timeMap (customId : string) : option string :=
  if decide (customId = "quick_2m"%string) then Some "2m"%string
  else if decide (customId = "quick_4m"%string) then Some "4m"%string
  else if decide (customId = "quick_5m"%string) then Some "5m"%string
  else if decide (customId = "quick_6m"%string) then Some "6m"%string
  else if decide (customId = "quick_40m"%string) then Some "40m"%string
  else None.

Definition quick_button (g : string) (customId : string) (st : state)
    : set_outcome * state :=
  match Duration.parseTime (timeMap customId) g (defaultTimes st) with
  | None => (SetInvalid, st)
  | Some Infinity => (SetInfinite, st)
  | Some (Finite d) => (DefaultSet d, set_defaultTimes (<[g := d]>) st)
  end.

(** ** Derived notions used in the statements *)

(** Every stored default is positive: what the three writers maintain. *)
Definition defaults_positive (dt : gmap string Z) : Prop :=
  ∀ g d, dt !! g = Some d → 0 < d.

(** A status message is registered for channel [c] of guild [g]. *)
Definition message_target (g c : string) (st : state) : option string :=
  match timerMessages st !! g with
  | Some inner =>
      match inner !! c with
      | Some md => mdMessage md
      | None => None
      end
  | None => None
  end.






(** Consecutive entries of a log are at least [gap] apart. *)
Fixpoint spaced (gap : Z) (log : list Z) : Prop :=
  match log with
  | [] => True
  | a :: rest =>
      match rest with
      | [] => True
      | b :: _ => a + gap ≤ b
      end ∧ spaced gap rest
  end.

(** The test of line 719: whether [scheduleWarning] arms its closure. *)
Definition warning_due (t : timer) (nowW : Z) : bool :=
  (0 <? default (endTime t - 60000) (warningTime t) - nowW) && (60000 <? duration t).

(** The two callers of [scheduleWarning] set [warningTime] to
    [endTime - 60000] just before the call; the function itself falls
    back to that value when the property is absent. *)
Definition warning_consistent (t : timer) : Prop :=
  warningTime t = None ∨ warningTime t = Some (endTime t - 60000).

Definition is_warning (p : pending) : Prop :=
  match pcallback p with
  | WarningCb _ => True
  | _ => False
  end.

Definition is_expiry (p : pending) : bool :=
  match pcallback p with
  | ExpiryCb _ _ | ResumedExpiryCb _ _ => true
  | _ => false
  end.

(** Every warning closure queued in [st'] was already queued in [st]. *)
Definition no_new_warning (st st' : state) : Prop :=
  ∀ h p, scheduled st' !! h = Some p → is_warning p → scheduled st !! h = Some p.

(** ** Sample states *)

(** Ten timers of guild [g1] on ten channels, built by the module itself. *)
Definition ten_channels : list string :=
  ["c0"; "c1"; "c2"; "c3"; "c4"; "c5"; "c6"; "c7"; "c8"; "c9"]%string.

Definition full_guild : state :=
  foldr (λ c st, (startTimer c "g1" 300000 "Timer: 5m" None 0 0 st).2)
    initial_state ten_channels.

(** A five-minute timer started at time 0 on channel [c1] of guild [g1],
    with status message [m1]; the same timer paused ten seconds later. *)
Definition running_5m : state :=
  (startTimer "c1" "g1" 300000 "Timer: 5m" (Some "m1"%string) 0 0 initial_state).2.

Definition paused_5m : state :=
  (timer_pause "c1" "g1" 10000 10000 10000 running_5m).2.

(** The timer object resident in [running_5m]. *)
Definition timer_5m : timer :=
  mkTimer "c1" "g1" 0 300000 300000 "Timer: 5m"
    (Some 3%positive) (Some 1%positive) false (Some 2%positive)
    (Some 240000) (Some 240000) None None.

(** The timer object resident in [paused_5m]. *)
Definition timer_5m_paused : timer :=
  mkTimer "c1" "g1" 0 300000 300000 "Timer: 5m"
    (Some 3%positive) (Some 1%positive) true None
    (Some 240000) (Some 230000) (Some 10000) (Some 290000).

(** The same timer started by the start button when the reply could not
    be fetched: no status message is registered. *)
Definition running_untracked : state :=
  (timer_start "c1" "g1" None 0 0 initial_state).2.

(** A thirty-second timer, running and paused. *)
Definition running_30s : state :=
  (startTimer "c1" "g1" 30000 "Timer: 30s" (Some "m1"%string) 0 0 initial_state).2.

Definition paused_30s : state :=
  (timer_pause "c1" "g1" 10000 10000 10000 running_30s).2.

(** The timer object resident in [paused_30s]. *)
Definition timer_30s_paused : timer :=
  mkTimer "c1" "g1" 0 30000 30000 "Timer: 30s"
    (Some 2%positive) (Some 1%positive) true None
    (Some (-30000)) (Some (-40000)) (Some 10000) (Some 20000).

(** The thirty-second timer paused at its deadline, and its timer object. *)
Definition lapsed_30s : state :=
  (timer_pause "c1" "g1" 30000 30000 30000 running_30s).2.

Definition timer_30s_lapsed : timer :=
  mkTimer "c1" "g1" 0 30000 30000 "Timer: 30s"
    (Some 2%positive) (Some 1%positive) true None
    (Some (-30000)) (Some (-60000)) (Some 30000) (Some 0).

(** The timer object resident on channel [c3] of [full_guild]. *)
Definition timer_c3 : timer :=
  mkTimer "c3" "g1" 0 300000 300000 "Timer: 5m"
    (Some 21%positive) (Some 19%positive) false (Some 20%positive)
    (Some 240000) (Some 240000) None None.








(** A duration of 310 digits, in seconds: beyond every double. *)
Definition endless_seconds : string :=
  (string_of_list_ascii (replicate 310 "9"%char) ++ "s")%string.

(** * The rest of the module *)

(** The maps below are process-wide like [activeTimers]; no function of
    the timer registry reads them, so their functions take and return the
    map they work on. *)

(** ** Command cooldowns: [isRateLimited] (lines 185-187, 260-275) *)

Definition RATE_LIMIT_MS : Z := 1000.

(** [now] is the reading of line 261.  A stored stamp of 0 is falsy and
    counts as no stamp (line 264). *)
Definition isRateLimited (userId : string) (now : Z) (userCooldowns : gmap string Z)
    : bool * gmap string Z :=
  match userCooldowns !! userId with
  | None => (false, <[userId := now]> userCooldowns)
  | Some lastCommand =>
      if lastCommand =? 0 then (false, <[userId := now]> userCooldowns)
      else if now - lastCommand <? RATE_LIMIT_MS then (true, userCooldowns)
      else (false, <[userId := now]> userCooldowns)
  end.

(** The five-minute sweep of lines 1009-1016: entries older than ten
    seconds are deleted. *)
Definition sweep_cooldowns (now : Z) (userCooldowns : gmap string Z) : gmap string Z :=
  filter (λ kv, ¬ (RATE_LIMIT_MS * 10 < now - kv.2)) userCooldowns.

(** A sequence of commands, each by a user at a clock reading; the log
    holds the readings at which commands of [u] were let through. *)
Fixpoint run_commands (u : string) (cmds : list (string * Z)) (cd : gmap string Z)
    : list Z * gmap string Z :=
  match cmds with
  | [] => ([], cd)
  | (v, now) :: rest =>
      let '(limited, cd1) := isRateLimited v now cd in
      let '(log, cd2) := run_commands u rest cd1 in
      (if negb limited && bool_decide (v = u) then now :: log else log, cd2)
  end.

(** ** The global request window: [checkGlobalRateLimit] (lines 190-203) *)

Record globalRateLimit := mkGlobalRateLimit {
  requests : Z;
  resetTime : Z;
  maxRequests : Z
}.

(** [requests++ < maxRequests] compares the value before the increment. *)
Definition checkGlobalRateLimit (now : Z) (g : globalRateLimit) : bool * globalRateLimit :=
  let g1 :=
    if resetTime g <? now then mkGlobalRateLimit 0 (now + 60000) (maxRequests g)
    else g in
  (requests g1 <? maxRequests g1,
   mkGlobalRateLimit (requests g1 + 1) (resetTime g1) (maxRequests g1)).

Fixpoint run_requests (nows : list Z) (g : globalRateLimit) : list bool * globalRateLimit :=
  match nows with
  | [] => ([], g)
  | now :: rest =>
      let '(ok, g1) := checkGlobalRateLimit now g in
      let '(oks, g2) := run_requests rest g1 in
      (ok :: oks, g2)
  end.

(** ** The loop guard: [isCommandLooping] (lines 206-224) *)

Definition isCommandLooping (userId commandName : string) (now : Z)
    (commandExecutionTracker : gmap string (list Z)) : bool * gmap string (list Z) :=
  let key := (userId ++ "-" ++ commandName)%string in
  let executions := default [] (commandExecutionTracker !! key) in
  let recentExecutions := filter (λ time, now - time < 5000) executions in
  if decide (3 ≤ length recentExecutions)%nat then (true, commandExecutionTracker)
  else (false, <[key := recentExecutions ++ [now]]> commandExecutionTracker).

(** The one-minute sweep of lines 1036-1047. *)
Definition sweep_tracker (now : Z) (commandExecutionTracker : gmap string (list Z))
    : gmap string (list Z) :=
  omap (λ executions,
          let filtered := filter (λ time, now - time < 10000) executions in
          if decide (length filtered = 0%nat) then None else Some filtered)
       commandExecutionTracker.

(** Calls of the guard for one key at successive readings; the log holds
    the readings at which it answered [false]. *)
Fixpoint run_guard (userId commandName : string) (nows : list Z)
    (tr : gmap string (list Z)) : list Z * gmap string (list Z) :=
  match nows with
  | [] => ([], tr)
  | now :: rest =>
      let '(looping, tr1) := isCommandLooping userId commandName now tr in
      let '(log, tr2) := run_guard userId commandName rest tr1 in
      (if looping then log else now :: log, tr2)
  end.

Fixpoint ascending_from (t0 : Z) (nows : list Z) : Prop :=
  match nows with
  | [] => True
  | now :: rest => t0 ≤ now ∧ ascending_from now rest
  end.

(** ** Microphone history (lines 182-183, 277-309, 1019-1033) *)

Record micEntry := mkMicEntry {
  mic_userId : string;
  mic_username : string;
  mic_timestamp : Z
}.

(** [now] stands for the [new Date()] of line 295. *)
Definition addToMicrophoneHistory (guildId userId username : string) (now : Z)
    (microphoneUnmuteHistory : gmap string (list micEntry)) : gmap string (list micEntry) :=
  let history := default [] (microphoneUnmuteHistory !! guildId) in
  let history1 :=
    match list_find (λ entry, mic_userId entry = userId) history with
    | Some (existingIndex, _) => delete existingIndex history
    | None => history
    end in
  let history2 := mkMicEntry userId username now :: history1 in
  let history3 := if decide (10 < length history2)%nat then take 10 history2 else history2 in
  <[guildId := history3]> microphoneUnmuteHistory.

Definition getMicrophoneHistory (guildId : string)
    (microphoneUnmuteHistory : gmap string (list micEntry)) : list micEntry :=
  default [] (microphoneUnmuteHistory !! guildId).

(** The ten-minute sweep of lines 1019-1033. *)
Definition sweep_microphone_history (now : Z)
    (microphoneUnmuteHistory : gmap string (list micEntry)) : gmap string (list micEntry) :=
  omap (λ history,
          let filteredHistory :=
            filter (λ entry, now - mic_timestamp entry < 24 * 60 * 60 * 1000) history in
          if decide (length filteredHistory = 0%nat) then None else Some filteredHistory)
       microphoneUnmuteHistory.

(** What every history list satisfies: distinct users, at most ten. *)
Definition history_ok (history : list micEntry) : Prop :=
  NoDup (mic_userId <$> history) ∧ (length history ≤ 10)%nat.

Definition histories_ok (mh : gmap string (list micEntry)) : Prop :=
  ∀ g history, mh !! g = Some history → history_ok history.

(** The stamps of a key that the guard stores are few. *)
Definition tracker_bounded (tr : gmap string (list Z)) : Prop :=
  ∀ key l, tr !! key = Some l → (length l ≤ 3)%nat.

(** ** Message flags (lines 82-107) *)

(** [getMessageFlag]: [|| null] also turns an empty id into [null]. *)
Definition getMessageFlag (g c : string) (st : state) : option string :=
  match messageFlagsForCleanup st !! g with
  | None => None
  | Some inner =>
      match inner !! c with
      | Some mid => if decide (mid = EmptyString) then None else Some mid
      | None => None
      end
  end.

Definition clearMessageFlag (g c : string) (st : state) : state :=
  set_messageFlagsForCleanup
    (λ mf,
       match mf !! g with
       | None => mf
       | Some inner =>
           let inner' := delete c inner in
           if decide (size inner' = 0%nat) then delete g mf else <[g := inner']> mf
       end) st.

(** No guild is mapped to an empty inner map. *)
Definition flags_tidy (st : state) : Prop :=
  ∀ g inner, messageFlagsForCleanup st !! g = Some inner → inner ≠ ∅.

(** ** Collecting the messages to delete (lines 122-142) *)

Record chatMessage := mkChatMessage {
  message_id : string;
  fromBot : bool;
  createdTimestamp : Z
}.

(** One turn of the loop of lines 128-142 on [foundFlag] and
    [messagesToDelete]; [fromBot] is the test of line 138. *)
Definition collect_step (flagMessageId : string) (acc : bool * list chatMessage)
    (m : chatMessage) : bool * list chatMessage :=
  let '(foundFlag, messagesToDelete) := acc in
  if decide (message_id m = flagMessageId) then (true, messagesToDelete)
  else if foundFlag then
    if fromBot m then (foundFlag, messagesToDelete ++ [m])
    else (foundFlag, messagesToDelete)
  else (foundFlag, messagesToDelete).

(** The loop over [sortedMessages.values()], the messages in the order
    produced by the sort of line 126. *)
Definition messagesToDelete (flagMessageId : string) (sortedMessages : list chatMessage)
    : list chatMessage :=
  (foldl (collect_step flagMessageId) (false, []) sortedMessages).2.

(** ** Bulk cleanup *)

(** [cleanupAllTimers] (lines 251-257). *)
Definition cleanupAllTimers (st : state) : state :=
  set_activeTimers (λ _, ∅)
    (map_fold (λ _ t acc, safeCleanupTimer t acc) st (activeTimers st)).

(** The loop of lines 3200-3209 that stops every timer of a guild; the
    snapshots are only counted, so one clock reading stands for all. *)
Definition stop_guild_timers (g : string) (now : Z) (st : state) : nat * state :=
  map_fold
    (λ c t acc,
       if decide (guildId t = g) then
         match stopTimer c now acc.2 with
         | (Some _, st') => (S acc.1, st')
         | (None, st') => (acc.1, st')
         end
       else acc)
    (0%nat, st) (activeTimers st).

(** The fifteen-minute sweep of lines 1049-1063: status messages of
    channels without a resident timer are forgotten. *)
Definition sweep_timer_messages (st : state) : state :=
  set_timerMessages
    (omap (λ guildMessages,
             let kept := filter (λ cm, is_Some (activeTimers st !! cm.1)) guildMessages in
             if decide (size kept = 0%nat) then None else Some kept))
    st.

(** ** What the module can do to its state *)

(** The handlers are [async]: between two [await]s a handler runs
    without interruption, and at an [await] any other handler or closure
    may run.  A step is one such uninterrupted stretch of code that
    touches the registry or the queue:
    - [startTimer], [stopTimer], [stopAllTimersInChannel] and
      [cleanupAllTimers] contain no [await];
    - the three start surfaces clear the old timeouts (lines 1152-1158,
      1665-1671, 2072-2078), await their reply and only then call
      [startTimer];
    - the pause handler reads the timer and rewrites it after its last
      [await] (lines 2122-2235);
    - a timeout that comes due leaves the queue; the expiry closures
      await [channel.send] before they clean up (lines 799-815,
      2171-2185), so their cleanup is a step of its own that may come at
      any later time;
    - everything else ([updateTimerMessage], the writers of
      [defaultTimes], the message flags, the sweeps) leaves the registry
      and the queue alone. *)
Inductive step : state → state → Prop :=
  | step_startTimer c g d msg tm now nowW st :
      step st (startTimer c g d msg tm now nowW st).2
  | step_clear_old_timeouts c st :
      step st (clear_old_timeouts c st)
  | step_stopTimer c now st :
      step st (stopTimer c now st).2
  | step_timer_pause c g r1 r2 r3 st :
      step st (timer_pause c g r1 r2 r3 st).2
  | step_stopAllTimersInChannel c st :
      step st (stopAllTimersInChannel c st).2
  | step_cleanupAllTimers st :
      step st (cleanupAllTimers st)
  | step_timeout_due h st :
      step st (clearHandle (Some h) st)
  | step_run_callback cb inVoice st :
      step st (run_callback cb inVoice st).2
  | step_elsewhere st st' :
      activeTimers st' = activeTimers st →
      scheduled st' = scheduled st →
      nextHandle st' = nextHandle st →
      step st st'.

Inductive reachable : state → Prop :=
  | reachable_initial : reachable initial_state
  | reachable_step st st' : reachable st → step st st' → reachable st'.

(** The two caps of [canCreateTimer]. *)
Definition caps_ok (st : state) : Prop :=
  (size (activeTimers st) ≤ MAX_TOTAL_TIMERS)%nat
  ∧ ∀ g, (guildTimerCount g (activeTimers st) ≤ MAX_TIMERS_PER_GUILD)%nat.

Definition handle_below (n : positive) (h : option positive) : Prop :=
  match h with
  | Some i => (i < n)%positive
  | None => True
  end.

(** The closure queued under a handle, if any, is of the given kind. *)
Definition queued_as (P : callback → Prop) (h : option positive) (st : state) : Prop :=
  ∀ i p, h = Some i → scheduled st !! i = Some p → P (pcallback p).

Definition expiry_of (c : string) (cb : callback) : Prop :=
  match cb with
  | ExpiryCb c' _ | ResumedExpiryCb c' _ => c' = c
  | _ => False
  end.

Definition warning_of (c : string) (cb : callback) : Prop :=
  match cb with
  | WarningCb c' => c' = c
  | _ => False
  end.

Definition refresh_of (c : string) (cb : callback) : Prop :=
  match cb with
  | RefreshCb c' => c' = c
  | _ => False
  end.

(** What holds of a timer resident on channel [c]. *)
Definition timer_ok (st : state) (c : string) (t : timer) : Prop :=
  channelId t = c
  ∧ warningTime t = Some (endTime t - 60000)
  ∧ (isPaused t = true ↔ is_Some (pausedRemainingTime t))
  ∧ handle_below (nextHandle st) (timeoutId t)
  ∧ handle_below (nextHandle st) (warningTimeoutId t)
  ∧ handle_below (nextHandle st) (updateIntervalId t)
  ∧ queued_as (expiry_of c) (timeoutId t) st
  ∧ queued_as (warning_of c) (warningTimeoutId t) st
  ∧ queued_as (refresh_of c) (updateIntervalId t) st
  ∧ (isPaused t = true →
     warningTimeoutId t = None
     ∧ ¬ is_armed (timeoutId t) st
     ∧ ¬ is_armed (updateIntervalId t) st).

Definition state_ok (st : state) : Prop :=
  caps_ok st
  ∧ (∀ h p, scheduled st !! h = Some p → (h < nextHandle st)%positive)
  ∧ (∀ c t, activeTimers st !! c = Some t → timer_ok st c t).

(** How the queue of [st'] relates to the one of an earlier state [st]:
    handles are handed out in increasing order, every queued handle has
    been handed out, and an entry under a handle that [st] had already
    handed out was queued in [st]. *)
Definition queue_le (st st' : state) : Prop :=
  (nextHandle st ≤ nextHandle st')%positive
  ∧ (∀ h p, scheduled st' !! h = Some p → (h < nextHandle st')%positive)
  ∧ (∀ h p, (h < nextHandle st)%positive →
       scheduled st' !! h = Some p → scheduled st !! h = Some p).

(** * Properties *)

(** Closed facts about sample states are settled by evaluation. *)
Ltac settle_by_eval := vm_compute; first [reflexivity | discriminate | eauto].

(** ** The sample states *)

Lemma running_5m_resident : activeTimers running_5m !! "c1"%string = Some timer_5m.
Proof. settle_by_eval. Qed.

Lemma paused_5m_resident : activeTimers paused_5m !! "c1"%string = Some timer_5m_paused.
Proof. settle_by_eval. Qed.

Lemma paused_30s_resident : activeTimers paused_30s !! "c1"%string = Some timer_30s_paused.
Proof. settle_by_eval. Qed.

Lemma lapsed_30s_resident : activeTimers lapsed_30s !! "c1"%string = Some timer_30s_lapsed.
Proof. settle_by_eval. Qed.

Lemma full_guild_c3 : activeTimers full_guild !! "c3"%string = Some timer_c3.
Proof. settle_by_eval. Qed.

Lemma full_guild_count : guildTimerCount "g1" (activeTimers full_guild) = 10%nat.
Proof. settle_by_eval. Qed.

Lemma full_guild_size : size (activeTimers full_guild) = 10%nat.
Proof. settle_by_eval. Qed.

Lemma full_guild_other : guildTimerCount "g2" (activeTimers full_guild) = 0%nat.
Proof. settle_by_eval. Qed.

(** ** Duration parsing *)

Section DurationFacts.
Import Duration.

Lemma is_unit_bool (u : ascii) : is_unit u = bool_decide (is_Some (unit_factor u)).
Proof. destruct u as [[] [] [] [] [] [] [] []]; reflexivity. Qed.

Lemma is_unit_factor (u : ascii) : is_unit u = true ↔ is_Some (unit_factor u).
Proof. rewrite is_unit_bool. apply bool_decide_eq_true. Qed.

(** The branch [parseTime] takes on a unit character is the one of the
    factor of the grammar. *)
Lemma unit_factor_switch (u : ascii) (f : Z) (value : number) :
  unit_factor u = Some f →
  match toLowerCase u with
  | "s"%char => Some (number_mul value 1000)
  | "m"%char => Some (number_mul (number_mul value 60) 1000)
  | "h"%char => Some (number_mul (number_mul (number_mul value 60) 60) 1000)
  | _ => None
  end = Some (times_factor value f).
Proof.
  destruct u as [[] [] [] [] [] [] [] []]; cbn; try discriminate;
    intros [= <-]; reflexivity.
Qed.

Lemma unit_factor_values (u : ascii) (f : Z) :
  unit_factor u = Some f → f = 1000 ∨ f = 60000 ∨ f = 3600000.
Proof.
  destruct u as [[] [] [] [] [] [] [] []]; cbn; try discriminate;
    intros [= <-]; auto.
Qed.

(** Integers up to [2 ^ 53] are Number values. *)
Lemma to_number_exact (z : Z) : z ≤ 2 ^ 53 → to_number z = Finite z.
Proof.
  intros Hz. unfold to_number, round53.
  destruct (Z.ltb_spec z (2 ^ 53)) as [Hlt|Hge].
  - destruct (Z.ltb_spec z (2 ^ 1024)) as [_|Hbig]; [reflexivity|].
    exfalso. assert (2 ^ 53 < 2 ^ 1024) by (apply Z.pow_lt_mono_r; lia). lia.
  - assert (z = 2 ^ 53) as -> by lia. vm_compute. reflexivity.
Qed.

Lemma number_mul_exact (x b : Z) :
  x * b ≤ 2 ^ 53 → number_mul (Finite x) b = Finite (x * b).
Proof. intros Hb. cbn [number_mul]. by apply to_number_exact. Qed.

Lemma parseInt_from_nonneg (ds : string) :
  ∀ acc, all_digits ds = true → 0 ≤ acc → 0 ≤ parseInt_from acc ds.
Proof.
  induction ds as [|c r IH]; intros acc Hd Hacc; [done|].
  cbn in Hd. apply andb_prop in Hd as [Hc Hr]. cbn [parseInt_from].
  apply IH; [done|]. unfold is_digit in Hc. unfold digit_val. lia.
Qed.

(** Within the integers that doubles hold exactly, the product of
    [parseTime] is the product. *)
Lemma times_factor_exact (n f : Z) :
  f = 1000 ∨ f = 60000 ∨ f = 3600000 → 0 ≤ n → n * f ≤ 2 ^ 53 →
  times_factor (to_number n) f = Finite (n * f).
Proof.
  intros Hf Hn Hb. rewrite to_number_exact by nia.
  destruct Hf as [-> | [-> | ->]]; unfold times_factor; cbn [Z.eqb Pos.eqb].
  - by apply number_mul_exact.
  - rewrite (number_mul_exact n 60) by nia.
    rewrite (number_mul_exact (n * 60) 1000) by nia. f_equal. lia.
  - rewrite (number_mul_exact n 60) by nia.
    rewrite (number_mul_exact (n * 60) 60) by nia.
    rewrite (number_mul_exact (n * 60 * 60) 1000) by nia. f_equal. lia.
Qed.

Lemma match_time_sound (s ds : string) (u : ascii) :
  match_time s = Some (ds, u) →
  s = (ds ++ String u EmptyString)%string ∧ ds ≠ EmptyString
  ∧ all_digits ds = true ∧ is_unit u = true.
Proof.
  revert ds. induction s as [|c r IH]; intros ds; [discriminate|].
  cbn [match_time]. destruct (is_digit c) eqn:Hc; [|discriminate].
  destruct r as [|u' [|c'' r'']]; [discriminate| |].
  - destruct (is_unit u') eqn:Hu; [|discriminate].
    intros [= <- <-]. cbn. by rewrite Hc.
  - destruct (match_time (String u' (String c'' r''))) as [[ds' u0]|] eqn:Hm;
      [|discriminate].
    intros [= <- <-]. destruct (IH ds' eq_refl) as (Hs & _ & Hd & Hu).
    repeat split; [rewrite Hs; reflexivity|discriminate|cbn; by rewrite Hc, Hd|done].
Qed.

Lemma match_time_complete (ds : string) (u : ascii) :
  ds ≠ EmptyString → all_digits ds = true → is_unit u = true →
  match_time (ds ++ String u EmptyString) = Some (ds, u).
Proof.
  induction ds as [|c r IH]; [done|]. intros _ Hd Hu.
  cbn in Hd. apply andb_prop in Hd as [Hc Hr].
  destruct r as [|c' r'].
  - change (match_time (String c (String u EmptyString)) = Some (String c EmptyString, u)).
    cbn [match_time]. by rewrite Hc, Hu.
  - specialize (IH ltac:(discriminate) Hr Hu).
    change (String c (String c' r') ++ String u EmptyString)%string
      with (String c (String c' (r' ++ String u EmptyString)%string)).
    change (String c' r' ++ String u EmptyString)%string
      with (String c' (r' ++ String u EmptyString)%string) in IH.
    destruct (r' ++ String u EmptyString)%string as [|c2 r2] eqn:Hr'.
    + destruct r'; discriminate.
    + change (match_time (String c (String c' (String c2 r2))))
        with (if is_digit c
              then match match_time (String c' (String c2 r2)) with
                   | Some (ds, u) => Some (String c ds, u)
                   | None => None
                   end
              else None).
      by rewrite Hc, IH.
Qed.

Lemma in_grammar_match (s : string) : in_grammar s ↔ is_Some (match_time s).
Proof.
  split.
  - intros (ds & u & -> & Hne & Hd & Hu). apply is_unit_factor in Hu.
    rewrite match_time_complete by done. eauto.
  - intros [[ds u] Hm]. apply match_time_sound in Hm as (-> & Hne & Hd & Hu).
    exists ds, u. by rewrite <- is_unit_factor.
Qed.

Lemma append_nonempty (ds : string) (u : ascii) :
  (ds ++ String u EmptyString)%string ≠ EmptyString.
Proof. destruct ds; discriminate. Qed.

(** [parseInt] reads decimal notation: appending a digit multiplies by
    ten and adds the digit. *)
Lemma parseInt_from_snoc (acc : Z) (ds : string) (c : ascii) :
  parseInt_from acc (ds ++ String c EmptyString) = 10 * parseInt_from acc ds + digit_val c.
Proof. revert acc. induction ds as [|d r IH]; intros acc; cbn; [done|apply IH]. Qed.

Lemma default_for_positive (dt : gmap string Z) (g : string) :
  defaults_positive dt → 0 < default_for dt g.
Proof.
  intros Hp. unfold default_for. destruct (dt !! g) as [d|] eqn:Hg; [|done].
  apply Hp in Hg. destruct (Z.eqb_spec d 0); [done|lia].
Qed.

(** C9, as the code has it: every string of the grammar
    [^(\d+)(s|m|h)$] (either case) whose decimal value times 1000, 60000
    or 3600000 is at most [2 ^ 53] parses to that product; beyond, to the
    product as doubles give it ([parseInt] rounds and so does each
    multiplication); every other non-empty string yields [null]; the
    empty string is absent input; absent input yields the guild's stored
    default, or 300000 when none is stored. *)
Theorem parseTime_spec (dt : gmap string Z) (g : string) :
  (∀ ds u f, ds ≠ EmptyString → all_digits ds = true → unit_factor u = Some f →
     parseInt_from 0 ds * f ≤ 2 ^ 53 →
     parseTime (Some (ds ++ String u EmptyString)%string) g dt
     = Some (Finite (parseInt_from 0 ds * f)))
  ∧ (∀ ds u f, ds ≠ EmptyString → all_digits ds = true → unit_factor u = Some f →
     parseTime (Some (ds ++ String u EmptyString)%string) g dt
     = Some (times_factor (to_number (parseInt_from 0 ds)) f))
  ∧ (∀ s, s ≠ EmptyString → ¬ in_grammar s → parseTime (Some s) g dt = None)
  ∧ parseTime (Some EmptyString) g dt = parseTime None g dt
  ∧ (defaults_positive dt → ∀ d, dt !! g = Some d → parseTime None g dt = Some (Finite d))
  ∧ (dt !! g = None → parseTime None g dt = Some (Finite 300000)).
Proof.
  assert (Hall : ∀ ds u f, ds ≠ EmptyString → all_digits ds = true →
                   unit_factor u = Some f →
                   parseTime (Some (ds ++ String u EmptyString)%string) g dt
                   = Some (times_factor (to_number (parseInt_from 0 ds)) f)).
  { intros ds u f Hne Hd Hf.
    assert (Hu : is_unit u = true) by (apply is_unit_factor; eauto).
    unfold parseTime.
    destruct (ds ++ String u EmptyString)%string eqn:Hs;
      [by apply append_nonempty in Hs|].
    rewrite <- Hs, match_time_complete by done.
    by apply unit_factor_switch. }
  split; [|split; [exact Hall|split; [|split; [done|split]]]].
  - intros ds u f Hne Hd Hf Hb. rewrite (Hall ds u f Hne Hd Hf). f_equal.
    apply times_factor_exact; [by eapply unit_factor_values| |done].
    by apply parseInt_from_nonneg.
  - intros s Hne Hg. unfold parseTime. destruct s as [|c r]; [done|].
    destruct (match_time (String c r)) as [[ds u]|] eqn:Hm; [|done].
    exfalso. apply Hg, in_grammar_match. eauto.
  - intros Hp d Hd. unfold parseTime, default_for. rewrite Hd.
    apply Hp in Hd. destruct (Z.eqb_spec d 0); [lia|done].
  - intros Hd. unfold parseTime, default_for. by rewrite Hd.
Qed.

Lemma parseTime_spec_witness :
  parseTime (Some "15m"%string) "g1"%string {["g1"%string := 120000]}
  = Some (Finite (15 * 60000))
  ∧ parseTime (Some "2H"%string) "g1"%string {["g1"%string := 120000]}
    = Some (Finite (2 * 3600000))
  ∧ parseTime (Some "9007199254740993s"%string) "g1"%string {["g1"%string := 120000]}
    = Some (Finite 9007199254740992000)
  ∧ parseTime (Some "5 m"%string) "g1"%string {["g1"%string := 120000]} = None
  ∧ parseTime (Some EmptyString) "g1"%string {["g1"%string := 120000]}
    = Some (Finite 120000)
  ∧ parseTime None "g1"%string {["g1"%string := 120000]} = Some (Finite 120000)
  ∧ parseTime None "g2"%string {["g1"%string := 120000]} = Some (Finite 300000).
Proof.
  destruct (parseTime_spec {["g1"%string := 120000]} "g1"%string)
    as (H1 & H2 & H3 & H4 & H5 & _).
  destruct (parseTime_spec {["g1"%string := 120000]} "g2"%string)
    as (_ & _ & _ & _ & _ & H6).
  assert (Hpos : defaults_positive ({["g1"%string := 120000]} : gmap string Z)).
  { intros g d Hd. apply lookup_singleton_Some in Hd as [_ <-]; lia. }
  refine (conj _ (conj _ (conj _ (conj _ (conj _ (conj _ _)))))).
  - apply (H1 "15"%string "m"%char 60000);
      [discriminate|reflexivity|reflexivity|vm_compute; discriminate].
  - apply (H1 "2"%string "H"%char 3600000);
      [discriminate|reflexivity|reflexivity|vm_compute; discriminate].
  - refine (eq_trans (H2 "9007199254740993"%string "s"%char 1000 _ _ _) _);
      [discriminate|reflexivity|reflexivity|vm_compute; reflexivity].
  - apply H3; [discriminate|].
    rewrite in_grammar_match. vm_compute. intros [? ?]; discriminate.
  - rewrite H4. apply H5; [exact Hpos|reflexivity].
  - apply H5; [exact Hpos|reflexivity].
  - apply H6. reflexivity.
Defined.

(** C9 as stated fails on digit strings whose value doubles do not
    hold: ["9007199254740993s"] is in the grammar, and [parseInt] rounds
    its digits to [2 ^ 53], so the result is 9007199254740992000 and not
    9007199254740993 times 1000. *)
Lemma parseTime_rounding_counterexample :
  in_grammar "9007199254740993s"
  ∧ parseInt_from 0 "9007199254740993" = 9007199254740993
  ∧ parseTime (Some "9007199254740993s"%string) "g1"%string ∅
    = Some (Finite 9007199254740992000)
  ∧ parseTime (Some "9007199254740993s"%string) "g1"%string ∅
    ≠ Some (Finite (9007199254740993 * 1000)).
Proof.
  refine (conj _ (conj _ (conj _ _))).
  - exists "9007199254740993"%string, "s"%char.
    split; [reflexivity|]. split; [discriminate|]. split; [reflexivity|].
    exists 1000. reflexivity.
  - vm_compute. reflexivity.
  - vm_compute. reflexivity.
  - vm_compute. discriminate.
Qed.

End DurationFacts.

(** ** The warning scheduler *)

Section Warning.

Lemma scheduleWarning_unfold (t : timer) (c : string) (nowW : Z) (st : state) :
  scheduleWarning t c nowW st =
    let st1 := clearHandle (warningTimeoutId t) st in
    if warning_due t nowW then
      (with_warningTimeoutId (Some (nextHandle st1)) t,
       (setTimeout (WarningCb c)
          (default (endTime t - 60000) (warningTime t) - nowW) st1).2)
    else (with_warningTimeoutId None t, st1).
Proof.
  unfold scheduleWarning, warning_due.
  destruct t as [? ? ? ? ? ? ? ? ? [h|] ? ? ? ?]; cbn;
    destruct (_ && _); reflexivity.
Qed.

Lemma scheduleWarning_timer (t : timer) (c : string) (nowW : Z) (st : state) :
  (scheduleWarning t c nowW st).1
    = with_warningTimeoutId (warningTimeoutId (scheduleWarning t c nowW st).1) t.
Proof. rewrite scheduleWarning_unfold. cbn. by destruct (warning_due t nowW). Qed.

Lemma scheduleWarning_registry (t : timer) (c : string) (nowW : Z) (st : state) :
  activeTimers (scheduleWarning t c nowW st).2 = activeTimers st.
Proof.
  rewrite scheduleWarning_unfold. cbn.
  destruct (warning_due t nowW), (warningTimeoutId t); reflexivity.
Qed.

Lemma scheduleWarning_quiet (t : timer) (c : string) (nowW : Z) (st : state) :
  warning_due t nowW = false →
  scheduleWarning t c nowW st
    = (with_warningTimeoutId None t, clearHandle (warningTimeoutId t) st).
Proof. intros H. rewrite scheduleWarning_unfold. cbn zeta. by rewrite H. Qed.

Lemma warning_due_spec (t : timer) (nowW : Z) :
  warning_consistent t →
  warning_due t nowW = true ↔ 60000 < duration t ∧ nowW < endTime t - 60000.
Proof.
  intros Hc. unfold warning_due.
  rewrite andb_true_iff, !Z.ltb_lt.
  destruct Hc as [-> | ->]; cbn; lia.
Qed.

Lemma no_new_warning_refl (st : state) : no_new_warning st st.
Proof. by intros h p. Qed.

Lemma no_new_warning_trans (st1 st2 st3 : state) :
  no_new_warning st1 st2 → no_new_warning st2 st3 → no_new_warning st1 st3.
Proof. intros H12 H23 h p Hp Hw. apply H12; [|done]. by apply H23. Qed.

Lemma no_new_warning_queue (st st' : state) :
  scheduled st' = scheduled st → no_new_warning st st'.
Proof. intros Heq h p. by rewrite Heq. Qed.

Lemma no_new_warning_clear (h : option positive) (st : state) :
  no_new_warning st (clearHandle h st).
Proof.
  destruct h as [i|]; [|apply no_new_warning_refl].
  intros k p. cbn. rewrite lookup_delete_Some. tauto.
Qed.

Lemma no_new_warning_arm (cb : callback) (d : Z) (r : bool) (st : state) :
  ¬ is_warning (mkPending cb d r) → no_new_warning st (arm cb d r st).2.
Proof.
  intros Hn k p. cbn. rewrite lookup_insert_Some.
  intros [[_ <-]|[_ Hk]] Hw; [done|done].
Qed.

Lemma safeCleanupTimer_quiet (t : timer) (st : state) :
  no_new_warning st (safeCleanupTimer t st).
Proof.
  unfold safeCleanupTimer.
  assert (H3 : no_new_warning st
                 (clearHandle (updateIntervalId t)
                    (clearHandle (warningTimeoutId t) (clearHandle (timeoutId t) st)))).
  { eapply no_new_warning_trans; [|apply no_new_warning_clear].
    eapply no_new_warning_trans; apply no_new_warning_clear. }
  case_decide; [done|].
  eapply no_new_warning_trans; [exact H3|]. by apply no_new_warning_queue.
Qed.

(** What [startTimer] does about the warning once the capacity check
    has passed. *)
Lemma startTimer_warning (c g : string) (d : Z) (msg : string) (tm : option string)
    (now nowW : Z) (st : state) :
  canCreateTimer g st = true →
  ∃ t', (startTimer c g d msg tm now nowW st).1 = Some t'
        ∧ endTime t' = now + d
        ∧ (is_Some (warningTimeoutId t') ↔ 60000 < d ∧ nowW < endTime t' - 60000)
        ∧ (d ≤ 60000 → no_new_warning st (startTimer c g d msg tm now nowW st).2).
Proof.
  intros H. unfold startTimer. rewrite H. cbn [negb].
  set (st1 := match activeTimers st !! c with
              | Some oldTimer => safeCleanupTimer oldTimer st
              | None => st
              end).
  assert (H1 : no_new_warning st st1).
  { subst st1. destruct (activeTimers st !! c);
      [apply safeCleanupTimer_quiet|apply no_new_warning_refl]. }
  match goal with
  | |- context [setInterval _ _ ?s] => set (st3 := s)
  end.
  assert (H3 : scheduled st3 = scheduled st1).
  { subst st3. destruct tm; [|done]. by destruct (bool_decide _). }
  unfold setInterval, setTimeout, arm. cbn iota beta zeta.
  rewrite scheduleWarning_unfold. cbn zeta.
  match goal with
  | |- context [warning_due ?t nowW] => set (t3 := t)
  end.
  assert (Hdue : warning_due t3 nowW = true ↔ 60000 < d ∧ nowW < now + d - 60000).
  { rewrite warning_due_spec by (right; reflexivity). done. }
  destruct (warning_due t3 nowW) eqn:Hw.
  - eexists. split; [reflexivity|]. cbn. split; [done|]. split.
    + split; [intros _; by apply Hdue|eauto].
    + intros Hd. destruct Hdue as [Hdue _]. specialize (Hdue eq_refl). lia.
  - eexists. split; [reflexivity|]. cbn. split; [done|]. split.
    + split; [by intros [? ?]|]. intros Hd. apply Hdue in Hd. done.
    + intros _ k p. cbn. rewrite lookup_insert_Some.
      intros [[_ <-]|[_ Hk]] Hp; [done|].
      rewrite lookup_insert_Some in Hk. destruct Hk as [[_ <-]|[_ Hk]]; [done|].
      rewrite H3 in Hk. by apply H1.
Qed.

Lemma resume_remaining (p : option Z) :
  (if truthyZ p then default 0 p else 0) = default 0 p.
Proof. destruct p as [v|]; cbn; [|done]. by destruct (Z.eqb_spec v 0). Qed.







End Warning.

(** ** Capacity *)

Section Capacity.

(** The loop of [canCreateTimer] counts the resident timers of the
    guild. *)
Lemma guildTimerCount_filter (g : string) (m : gmap string timer) :
  guildTimerCount g m = size (filter (λ kt, guildId kt.2 = g) m).
Proof.
  unfold guildTimerCount.
  apply (map_fold_weak_ind (λ r m, r = size (filter (λ kt, guildId kt.2 = g) m))).
  - by rewrite map_filter_empty, map_size_empty.
  - intros i x m' r Hi ->. destruct (decide (guildId x = g)) as [Hg|Hg].
    + rewrite map_filter_insert_True by done.
      rewrite map_size_insert_None; [done|].
      by rewrite map_lookup_filter_None; left.
    + rewrite map_filter_insert_not'; [done|done|]. intros y Hy. congruence.
Qed.

Lemma guildTimerCount_resident (g c : string) (t : timer) (m : gmap string timer) :
  m !! c = Some t → guildId t = g →
  guildTimerCount g m = S (guildTimerCount g (delete c m)).
Proof.
  intros Hc Hg. rewrite !guildTimerCount_filter.
  rewrite <- (insert_delete_id m c t) at 1 by done.
  rewrite map_filter_insert_True by done.
  rewrite map_size_insert_None; [done|].
  rewrite map_lookup_filter_None. left. apply lookup_delete_eq.
Qed.

Lemma canCreateTimer_false (g : string) (st : state) :
  (MAX_TOTAL_TIMERS ≤ size (activeTimers st)
   ∨ MAX_TIMERS_PER_GUILD ≤ guildTimerCount g (activeTimers st))%nat →
  canCreateTimer g st = false.
Proof.
  intros H. unfold canCreateTimer. repeat case_decide; try done. lia.
Qed.

Lemma canCreateTimer_true (g : string) (st : state) :
  (size (activeTimers st) < MAX_TOTAL_TIMERS)%nat →
  (guildTimerCount g (activeTimers st) < MAX_TIMERS_PER_GUILD)%nat →
  canCreateTimer g st = true.
Proof.
  intros H1 H2. unfold canCreateTimer. repeat case_decide; try done; lia.
Qed.

Lemma startTimer_rejected (c g : string) (d : Z) (msg : string) (tm : option string)
    (now nowW : Z) (st : state) :
  canCreateTimer g st = false → startTimer c g d msg tm now nowW st = (None, st).
Proof. intros H. unfold startTimer. by rewrite H. Qed.

Lemma startTimer_accepted (c g : string) (d : Z) (msg : string) (tm : option string)
    (now nowW : Z) (st : state) :
  canCreateTimer g st = true →
  ∃ t, (startTimer c g d msg tm now nowW st).1 = Some t
       ∧ activeTimers (startTimer c g d msg tm now nowW st).2 !! c = Some t
       ∧ duration t = d ∧ guildId t = g ∧ endTime t = now + d ∧ isPaused t = false.
Proof.
  intros H. unfold startTimer. rewrite H. cbn [negb].
  unfold setInterval, setTimeout, arm. cbn iota beta zeta.
  destruct (scheduleWarning _ _ _ _) as [t4 st5] eqn:HW.
  eexists. split; [reflexivity|]. cbn.
  rewrite lookup_insert_eq. split; [done|].
  apply (f_equal fst) in HW. rewrite scheduleWarning_timer in HW.
  cbn in HW. by rewrite <- HW.
Qed.

(** C4: when the registry holds [MAX_TOTAL_TIMERS] timers or the guild
    holds [MAX_TIMERS_PER_GUILD], [startTimer] returns [null] and leaves
    the whole state (registry, queue, every other guild's timers) as it
    was; a guild below its cap can still start a timer; and the guild
    count is the number of resident timers of that guild. *)
Theorem startTimer_capacity (c g : string) (d : Z) (msg : string) (tm : option string)
    (now nowW : Z) (st : state) :
  guildTimerCount g (activeTimers st)
    = size (filter (λ kt, guildId kt.2 = g) (activeTimers st))
  ∧ ((MAX_TOTAL_TIMERS ≤ size (activeTimers st)
      ∨ MAX_TIMERS_PER_GUILD ≤ guildTimerCount g (activeTimers st))%nat →
     startTimer c g d msg tm now nowW st = (None, st))
  ∧ (∀ c' g', (size (activeTimers st) < MAX_TOTAL_TIMERS)%nat →
       (guildTimerCount g' (activeTimers st) < MAX_TIMERS_PER_GUILD)%nat →
       is_Some (startTimer c' g' d msg tm now nowW st).1).
Proof.
  split; [apply guildTimerCount_filter|]. split.
  - intros H. by apply startTimer_rejected, canCreateTimer_false.
  - intros c' g' H1 H2.
    destruct (startTimer_accepted c' g' d msg tm now nowW st) as (t & Ht & _);
      [by apply canCreateTimer_true|].
    rewrite Ht. eauto.
Qed.

Lemma startTimer_capacity_witness :
  startTimer "c10" "g1" 300000 "Timer: 5m" None 0 0 full_guild = (None, full_guild)
  ∧ is_Some (startTimer "d0" "g2" 300000 "Timer: 5m" None 0 0 full_guild).1.
Proof.
  destruct (startTimer_capacity "c10" "g1" 300000 "Timer: 5m" None 0 0 full_guild)
    as (_ & Hfull & Hother).
  split.
  - apply Hfull. right. rewrite full_guild_count. reflexivity.
  - apply Hother; [rewrite full_guild_size|rewrite full_guild_other];
      unfold MAX_TOTAL_TIMERS, MAX_TIMERS_PER_GUILD; lia.
Defined.

(** C10: the scan counts the channel's own timer, so a restart on an
    occupied channel of a guild that is at its cap (or with the
    registry at the global cap) returns [null] and the old timer stays
    resident, although storing the replacement would not have changed
    the number of resident timers. *)
Theorem restart_at_cap_rejected (c g : string) (old : timer) (d : Z) (msg : string)
    (tm : option string) (now nowW : Z) (st : state) :
  activeTimers st !! c = Some old →
  guildId old = g →
  (MAX_TIMERS_PER_GUILD ≤ guildTimerCount g (activeTimers st)
   ∨ MAX_TOTAL_TIMERS ≤ size (activeTimers st))%nat →
  guildTimerCount g (activeTimers st)
    = S (guildTimerCount g (delete c (activeTimers st)))
  ∧ (∀ t', size (<[c := t']> (activeTimers st)) = size (activeTimers st))
  ∧ startTimer c g d msg tm now nowW st = (None, st)
  ∧ activeTimers (startTimer c g d msg tm now nowW st).2 !! c = Some old.
Proof.
  intros Hc Hg Hcap.
  assert (Hrej : startTimer c g d msg tm now nowW st = (None, st)).
  { apply startTimer_rejected, canCreateTimer_false. tauto. }
  split; [by eapply guildTimerCount_resident|]. split.
  - intros t'. by apply map_size_insert_Some.
  - split; [done|]. by rewrite Hrej.
Qed.

Lemma restart_at_cap_rejected_witness :
  startTimer "c3" "g1" 120000 "Timer: 2m" None 5000 5000 full_guild = (None, full_guild)
  ∧ activeTimers (startTimer "c3" "g1" 120000 "Timer: 2m" None 5000 5000 full_guild).2
      !! "c3"%string = Some timer_c3.
Proof.
  destruct (restart_at_cap_rejected "c3" "g1" timer_c3 120000 "Timer: 2m" None 5000 5000
              full_guild full_guild_c3 eq_refl) as (_ & _ & H1 & H2).
  { left. rewrite full_guild_count. reflexivity. }
  split; [exact H1|exact H2].
Defined.

End Capacity.

(** ** Pause and resume *)

Section PauseResume.

Lemma not_armed_clear (h h' : option positive) (st : state) :
  ¬ is_armed h st → ¬ is_armed h (clearHandle h' st).
Proof.
  destruct h as [i|]; [|done]. destruct h' as [j|]; [|done].
  cbn. intros Hn [p Hp]. apply lookup_delete_Some in Hp as [_ Hp]. eauto.
Qed.

Lemma clearHandle_not_armed (h : option positive) (st : state) :
  ¬ is_armed h (clearHandle h st).
Proof.
  destruct h as [i|]; [|by intros []]. cbn. rewrite lookup_delete_eq. by intros [? ?].
Qed.

Lemma not_armed_queue (h : option positive) (st st' : state) :
  scheduled st' = scheduled st → ¬ is_armed h st → ¬ is_armed h st'.
Proof. intros Heq. destruct h as [i|]; [|done]. cbn. by rewrite Heq. Qed.

Lemma cleared_three (h1 h2 h3 : option positive) (st st' : state) :
  scheduled st' = scheduled (clearHandle h3 (clearHandle h2 (clearHandle h1 st))) →
  ¬ is_armed h1 st' ∧ ¬ is_armed h2 st' ∧ ¬ is_armed h3 st'.
Proof.
  intros Heq. split; [|split]; apply (not_armed_queue _ _ _ Heq).
  - do 2 apply not_armed_clear. apply clearHandle_not_armed.
  - apply not_armed_clear. apply clearHandle_not_armed.
  - apply clearHandle_not_armed.
Qed.

(** A cleared timeout never runs. *)
Lemma fire_cleared (h : positive) (inVoice : bool) (st : state) :
  ¬ is_armed (Some h) st → fire h inVoice st = ([], st).
Proof.
  unfold fire. cbn. destruct (scheduled st !! h) as [p|]; [|done].
  intros []. eauto.
Qed.

(** The pause branch: the remaining time is stored, clamped at zero,
    and the three handles of the timer leave the queue. *)
Lemma pause_branch_pauses (c : string) (t : timer) (now nowAt nowW : Z) (st : state) :
  ∃ t' st',
    pause_branch c t now nowAt nowW st = (Paused, st')
    ∧ activeTimers st' !! c = Some t'
    ∧ isPaused t' = true
    ∧ pausedRemainingTime t' = Some (Z.max 0 (endTime t - now))
    ∧ endTime t' = endTime t
    ∧ duration t' = duration t
    ∧ warningTimeoutId t' = None
    ∧ ¬ is_armed (timeoutId t) st'
    ∧ ¬ is_armed (warningTimeoutId t) st'
    ∧ ¬ is_armed (updateIntervalId t) st'.
Proof.
  destruct t as [tc tg ts te td tm tto tui tp tw twt twr tpa tpr].
  unfold pause_branch.
  destruct tw as [w|]; cbn -[clearHandle is_armed];
    (eexists _, _; split; [reflexivity|]);
    cbn -[clearHandle is_armed]; rewrite lookup_insert_eq;
    (split; [reflexivity|]); cbn -[clearHandle is_armed];
    repeat (split; [reflexivity|]).
  - exact (cleared_three tto (Some w) tui st _ eq_refl).
  - exact (cleared_three tto None tui st _ eq_refl).
Qed.



Lemma toggle_expired (c g : string) (t : timer) (r1 r2 r3 : Z) (st : state) :
  activeTimers st !! c = Some t →
  isPaused t = true →
  default 0 (pausedRemainingTime t) ≤ 0 →
  timer_pause c g r1 r2 r3 st = (TimerExpired, set_activeTimers (delete c) st).
Proof.
  intros Hres Hp Hrem. unfold timer_pause, resume_branch.
  rewrite Hres, Hp, resume_remaining.
  by destruct (Z.leb_spec (default 0 (pausedRemainingTime t)) 0) as [_|?]; [|lia].
Qed.

(** C8: toggling a paused timer whose stored remaining time is not
    positive removes it from the registry and reports it as expired; the
    queue is left exactly as it was, so no closure is armed, and a handle
    that was not armed before (as the pause branch leaves the timer's
    three handles) is not armed afterwards. *)
Theorem resume_expired (c g : string) (t : timer) (r1 r2 r3 : Z) (st : state) :
  activeTimers st !! c = Some t →
  isPaused t = true →
  default 0 (pausedRemainingTime t) ≤ 0 →
  ∃ st',
    timer_pause c g r1 r2 r3 st = (TimerExpired, st')
    ∧ activeTimers st' !! c = None
    ∧ scheduled st' = scheduled st
    ∧ nextHandle st' = nextHandle st
    ∧ (∀ h, ¬ is_armed h st → ¬ is_armed h st')
    ∧ (∀ h inVoice, ¬ is_armed (Some h) st → fire h inVoice st' = ([], st')).
Proof.
  intros Hres Hp Hrem.
  exists (set_activeTimers (delete c) st).
  split; [by apply (toggle_expired c g t)|].
  split; [cbn; apply lookup_delete_eq|].
  split; [reflexivity|]. split; [reflexivity|]. split.
  - intros h. by apply not_armed_queue.
  - intros h v Hn. apply fire_cleared. revert Hn. by apply not_armed_queue.
Qed.

(** A running timer paused at or after its deadline and toggled again:
    expired, removed, and none of its handles left in the queue. *)
Lemma pause_past_deadline (c g : string) (t : timer)
    (now nowAt nowW r1 r2 r3 : Z) (st : state) :
  activeTimers st !! c = Some t →
  isPaused t = false →
  endTime t ≤ now →
  ∃ sp st',
    timer_pause c g now nowAt nowW st = (Paused, sp)
    ∧ timer_pause c g r1 r2 r3 sp = (TimerExpired, st')
    ∧ activeTimers st' !! c = None
    ∧ ¬ is_armed (timeoutId t) st'
    ∧ ¬ is_armed (warningTimeoutId t) st'
    ∧ ¬ is_armed (updateIntervalId t) st'.
Proof.
  intros Hres Hrun Hlate.
  destruct (pause_branch_pauses c t now nowAt nowW st)
    as (tp & sp & Hp & Hlook & Hpaused & Hrem & _ & _ & _ & Ha1 & Ha2 & Ha3).
  assert (Hz : default 0 (pausedRemainingTime tp) ≤ 0) by (rewrite Hrem; cbn; lia).
  exists sp, (set_activeTimers (delete c) sp).
  unfold timer_pause at 1. rewrite Hres, Hrun.
  split; [assumption|]. split; [by apply (toggle_expired c g tp)|].
  split; [cbn; apply lookup_delete_eq|].
  repeat split; by apply (not_armed_queue _ sp).
Qed.

Lemma resume_expired_witness :
  ∃ st',
    timer_pause "c1" "g1" 40000 40000 0 lapsed_30s = (TimerExpired, st')
    ∧ activeTimers st' !! "c1"%string = None
    ∧ scheduled st' = scheduled lapsed_30s.
Proof.
  destruct (resume_expired "c1" "g1" timer_30s_lapsed 40000 40000 0 lapsed_30s
              lapsed_30s_resident eq_refl) as (st' & Hr & Hgone & Hq & _).
  { cbn. lia. }
  exists st'. split; [exact Hr|]. split; [exact Hgone|exact Hq].
Defined.

End PauseResume.

(** ** Stop *)

Section Stop.





End Stop.

(** ** Cancellation of handles *)

Section Cancellation.

(** [safeCleanupTimer], used when [startTimer] replaces a timer, takes
    all three handles out of the queue. *)
Lemma safeCleanupTimer_cancels (t : timer) (st : state) :
  ¬ is_armed (timeoutId t) (safeCleanupTimer t st)
  ∧ ¬ is_armed (warningTimeoutId t) (safeCleanupTimer t st)
  ∧ ¬ is_armed (updateIntervalId t) (safeCleanupTimer t st).
Proof.
  apply (cleared_three _ _ _ st). unfold safeCleanupTimer. by case_decide.
Qed.

(** [stopAllTimersInChannel] removes the timer and leaves its warning
    timeout in the queue whenever that handle differs from the two it
    does clear. *)
Lemma stopAllTimersInChannel_keeps_warning (c : string) (t : timer) (h : positive)
    (st : state) :
  activeTimers st !! c = Some t →
  warningTimeoutId t = Some h →
  is_armed (Some h) st →
  updateIntervalId t ≠ Some h →
  timeoutId t ≠ Some h →
  activeTimers (stopAllTimersInChannel c st).2 !! c = None
  ∧ is_armed (Some h) (stopAllTimersInChannel c st).2.
Proof.
  intros Hres Hw Harm Hu Ht. unfold stopAllTimersInChannel. rewrite Hres.
  split; [cbn; apply lookup_delete_eq|].
  destruct (updateIntervalId t) as [i|], (timeoutId t) as [j|]; cbn in *;
    rewrite ?lookup_delete_ne by congruence; exact Harm.
Qed.

(** A restart through [!cs] on an occupied channel of a full guild: the
    surface has already cleared the old timer's expiry and warning
    timeouts when [startTimer] refuses, so the old timer stays resident
    with no expiry queued. *)
Lemma cs_command_at_cap :
  (cs_command "c3" "g1" "2m" "m" 5000 5000 full_guild).1 = LimitReached
  ∧ activeTimers (cs_command "c3" "g1" "2m" "m" 5000 5000 full_guild).2 !! "c3"%string
    = Some timer_c3
  ∧ is_armed (timeoutId timer_c3) full_guild
  ∧ scheduled (cs_command "c3" "g1" "2m" "m" 5000 5000 full_guild).2 !! 21%positive
    = None.
Proof. refine (conj _ (conj _ (conj _ _))); settle_by_eval. Qed.

(** Two starts on one channel in immediate succession, as the [!cs]
    surface performs them: one resident timer, of the second duration,
    and one expiry closure in the queue. *)
Lemma double_start_single_expiry :
  let st := (cs_command "c1" "g1" "3m" "m2" 5 5
               (cs_command "c1" "g1" "2m" "m1" 0 0 initial_state).2).2 in
  size (activeTimers st) = 1%nat
  ∧ duration <$> (activeTimers st !! "c1"%string) = Some 180000
  ∧ size (filter (λ kp, is_expiry kp.2 = true) (scheduled st)) = 1%nat.
Proof. refine (conj _ (conj _ _)); settle_by_eval. Qed.

(** C2 fails in the code: [stopAllTimersInChannel] clears the refresh
    interval and the expiry timeout of the timer it removes but not its
    warning timeout, which stays queued and plays the warning sound for
    a timer that no longer exists; and the expiry closure of
    [startTimer] removes the timer without clearing its refresh
    interval, which stays queued. *)
Theorem removal_leaves_handles_armed :
  (activeTimers running_5m !! "c1"%string = Some timer_5m
   ∧ warningTimeoutId timer_5m = Some 2%positive
   ∧ (stopAllTimersInChannel "c1" running_5m).1 = 1%nat
   ∧ activeTimers (stopAllTimersInChannel "c1" running_5m).2 !! "c1"%string = None
   ∧ is_armed (Some 2%positive) (stopAllTimersInChannel "c1" running_5m).2
   ∧ (fire 2 false (stopAllTimersInChannel "c1" running_5m).2).1
     = [PlaySound "c1" "cri.mp3"])
  ∧ (timeoutId timer_5m = Some 3%positive
     ∧ updateIntervalId timer_5m = Some 1%positive
     ∧ (fire 3 false running_5m).1 = [SendFinished "c1"]
     ∧ activeTimers (fire 3 false running_5m).2 !! "c1"%string = None
     ∧ is_armed (Some 1%positive) (fire 3 false running_5m).2).
Proof.
  refine (conj (conj _ (conj _ (conj _ (conj _ (conj _ _)))))
               (conj _ (conj _ (conj _ (conj _ _)))));
    settle_by_eval.
Qed.

End Cancellation.

(** ** Range checks on the command surfaces *)

Section Range.

(** The [!cs] surface rejects a duration outside [1000, 86400000] and
    leaves the state alone. *)
Lemma cs_command_range (c g args reply : string) (now nowW : Z) (st : state) (d : Z) :
  Duration.parseTime (Some args) g (defaultTimes st) = Some d →
  (d < MIN_TIMER_DURATION → cs_command c g args reply now nowW st = (TimerTooShort, st))
  ∧ (MAX_TIMER_DURATION < d → cs_command c g args reply now nowW st = (TimerTooLong, st)).
Proof.
  intros Hp. unfold cs_command, MIN_TIMER_DURATION, MAX_TIMER_DURATION. rewrite Hp.
  split; intros Hd.
  - destruct (Z.ltb_spec d 1000); [done|lia].
  - destruct (Z.ltb_spec d 1000); [lia|].
    destruct (Z.ltb_spec (24 * 60 * 60 * 1000) d); [done|lia].
Qed.

(** C3 fails in the code: the [/timer] surface only rejects a duration
    that is not positive, so [/timer 25h] creates a 90000000 ms timer
    where [!cs 25h] is rejected. *)
Theorem slash_timer_accepts_25h :
  (cs_command "c1" "g1" "25h" "m1" 0 0 initial_state).1 = TimerTooLong
  ∧ duration <$> (activeTimers
                    (slash_timer "c1" "g1" (Some "25h"%string) "m1" 0 0 initial_state).2
                    !! "c1"%string) = Some 90000000
  ∧ match (slash_timer "c1" "g1" (Some "25h"%string) "m1" 0 0 initial_state).1 with
    | Started t => duration t = 90000000
    | _ => False
    end
  ∧ MAX_TIMER_DURATION < 90000000.
Proof. refine (conj _ (conj _ (conj _ _))); settle_by_eval. Qed.

End Range.

(** ** The refresh throttle *)

Section Throttle.








End Throttle.

(** ** The default-duration store *)

Section Defaults.

Lemma defaults_positive_insert (g : string) (d : Z) (dt : gmap string Z) :
  0 < d → defaults_positive dt → defaults_positive (<[g := d]> dt).
Proof.
  intros Hd Hp g' d'. rewrite lookup_insert_Some.
  intros [[_ <-]|[_ Hg]]; [done|by eapply Hp].
Qed.

Lemma defaults_positive_empty : defaults_positive (defaultTimes initial_state).
Proof. intros g d. cbn. by rewrite lookup_empty. Qed.

(** Each of the three writers of [defaultTimes] stores a positive
    duration, so the [||] fallback of [parseTime] never masks a stored
    default. *)
Lemma set_cs_command_positive (g args : string) (st : state) :
  defaults_positive (defaultTimes st) →
  defaults_positive (defaultTimes (set_cs_command g args st).2).
Proof.
  intros Hp. unfold set_cs_command.
  destruct (Duration.parseTime _ _ _) as [[d|]|]; [|done|done].
  destruct (Z.ltb_spec d 1000); [done|].
  destruct (_ <? d); [done|]. cbn. apply defaults_positive_insert; [lia|done].
Qed.

Lemma slash_set_default_positive (g : string) (timeStr : option string) (st : state) :
  defaults_positive (defaultTimes st) →
  defaults_positive (defaultTimes (slash_set_default g timeStr st).2).
Proof.
  intros Hp. unfold slash_set_default.
  destruct (Duration.parseTime _ _ _) as [[d|]|]; [|done|done].
  destruct (Z.leb_spec d 0); [done|]. cbn. by apply defaults_positive_insert.
Qed.

Lemma quick_button_positive (g customId : string) (st : state) :
  defaults_positive (defaultTimes st) →
  defaults_positive (defaultTimes (quick_button g customId st).2).
Proof.
  intros Hp. unfold quick_button.
  destruct (Duration.parseTime _ _ _) as [[d|]|] eqn:Hd; [|done|done].
  cbn. apply defaults_positive_insert; [|done].
  unfold timeMap in Hd.
  repeat case_decide; try (vm_compute in Hd; injection Hd as <-; lia).
  cbn in Hd. injection Hd as <-. by apply default_for_positive.
Qed.

End Defaults.

(** ** Scenarios of the specification, run on the model *)

Example scenario_start_5m :
  (startTimer "c1" "g1" 300000 "Timer: 5m" (Some "m1"%string) 0 0 initial_state).1
  = Some timer_5m.
Proof. vm_compute. reflexivity. Qed.

Example scenario_pause_resume :
  endTime <$> (activeTimers (timer_pause "c1" "g1" 20000 20000 0 paused_5m).2
                 !! "c1"%string) = Some 310000.
Proof. vm_compute. reflexivity. Qed.

Example scenario_default_fallback :
  duration <$> (activeTimers running_untracked !! "c1"%string) = Some 300000.
Proof. vm_compute. reflexivity. Qed.

Example scenario_30s_no_warning :
  warningTimeoutId <$> (activeTimers running_30s !! "c1"%string) = Some None.
Proof. vm_compute. reflexivity. Qed.

(** A digit string beyond every double parses to [Infinity]: [!cs]
    and [!set cs] find it too long, [/timer] and [/set-default] let it
    through. *)
Example scenario_infinite_duration :
  Duration.parseTime (Some endless_seconds) "g1" ∅ = Some Infinity
  ∧ (cs_command "c1" "g1" endless_seconds "m1" 0 0 initial_state).1 = TimerTooLong
  ∧ (set_cs_command "g1" endless_seconds initial_state).1 = SetTooLong
  ∧ (slash_timer "c1" "g1" (Some endless_seconds) "m1" 0 0 initial_state).1
    = InfiniteDuration
  ∧ (slash_set_default "g1" (Some endless_seconds) initial_state).1 = SetInfinite.
Proof. repeat split; vm_compute; reflexivity. Qed.

Example scenario_25h_message_command :
  cs_command "c1" "g1" "25h" "m1" 0 0 initial_state = (TimerTooLong, initial_state).
Proof. reflexivity. Qed.

Example parse_examples :
  Duration.parseTime (Some "5m"%string) "g"%string ∅ = Some 300000
  ∧ Duration.parseTime (Some "25H"%string) "g"%string ∅ = Some 90000000
  ∧ Duration.parseTime (Some "5mm"%string) "g"%string ∅ = None
  ∧ Duration.parseTime (Some "m"%string) "g"%string ∅ = None
  ∧ Duration.parseTime (Some "007s"%string) "g"%string ∅ = Some 7000.
Proof. repeat split. Qed.

(** * The rest of the module: properties *)

(** ** Command cooldowns *)

Section Cooldowns.

Lemma isRateLimited_other (u v : string) (now : Z) (cd : gmap string Z) :
  v ≠ u → (isRateLimited v now cd).2 !! u = cd !! u.
Proof.
  intros Hne. unfold isRateLimited.
  destruct (cd !! v) as [last|]; [|cbn; by rewrite lookup_insert_ne].
  destruct (last =? 0); [cbn; by rewrite lookup_insert_ne|].
  destruct (_ <? _); [done|cbn; by rewrite lookup_insert_ne].
Qed.

Lemma isRateLimited_stamped (u : string) (now : Z) (cd : gmap string Z) (p : Z) :
  cd !! u = Some p → p ≠ 0 →
  isRateLimited u now cd
  = if now - p <? 1000 then (true, cd) else (false, <[u := now]> cd).
Proof.
  intros Hp Hnz. unfold isRateLimited, RATE_LIMIT_MS. rewrite Hp.
  by destruct (Z.eqb_spec p 0).
Qed.

Lemma run_commands_cons (u v : string) (now : Z) (rest : list (string * Z))
    (cd : gmap string Z) :
  (run_commands u ((v, now) :: rest) cd).1
  = let r := isRateLimited v now cd in
    if negb r.1 && bool_decide (v = u)
    then now :: (run_commands u rest r.2).1
    else (run_commands u rest r.2).1.
Proof.
  cbn. destruct (isRateLimited v now cd) as [limited cd1]. cbn.
  destruct (run_commands u rest cd1) as [log cd2]. cbn.
  by destruct (negb limited && bool_decide (v = u)).
Qed.

(** Once [u] has a non-zero stamp [p], the next command of [u] that is
    let through comes at least a second later. *)
Lemma run_commands_spaced_from (u : string) (cmds : list (string * Z)) :
  ∀ (cd : gmap string Z) (p : Z),
    cd !! u = Some p → p ≠ 0 →
    Forall (λ c, c.2 ≠ 0) cmds →
    match (run_commands u cmds cd).1 with
    | [] => True
    | a :: _ => p + 1000 ≤ a
    end ∧ spaced 1000 (run_commands u cmds cd).1.
Proof.
  induction cmds as [|[v now] rest IH]; intros cd p Hp Hnz Hall; [done|].
  apply Forall_cons in Hall as [Hnow Hall]. cbn in Hnow.
  rewrite run_commands_cons. cbn zeta.
  destruct (decide (v = u)) as [->|Hne].
  - rewrite bool_decide_eq_true_2 by done. rewrite andb_true_r.
    rewrite (isRateLimited_stamped u now cd p Hp Hnz).
    destruct (Z.ltb_spec (now - p) 1000) as [Hl|Hl]; cbn [fst snd negb].
    + by apply IH.
    + destruct (IH (<[u := now]> cd) now) as [Hfirst Hsp];
        [apply lookup_insert_eq|done|done|].
      split; [lia|]. cbn [spaced]. split; [|done].
      destruct (run_commands u rest _).1; [done|lia].
  - rewrite bool_decide_eq_false_2 by done. rewrite andb_false_r.
    apply IH; [|done|done]. by rewrite isRateLimited_other.
Qed.

(** X1: whatever the cooldown map holds and however the commands of
    different users interleave, two commands of one user that pass
    [isRateLimited] are at least 1000 ms apart, provided no clock reading
    is 0 (a stored 0 counts as no stamp). *)
Theorem rate_limit_spacing (u : string) (cmds : list (string * Z)) (cd : gmap string Z) :
  Forall (λ c, c.2 ≠ 0) cmds →
  spaced 1000 (run_commands u cmds cd).1.
Proof.
  revert cd. induction cmds as [|[v now] rest IH]; intros cd Hall; [done|].
  pose proof Hall as Hall'. apply Forall_cons in Hall' as [Hnow Hrest]. cbn in Hnow.
  rewrite run_commands_cons. cbn zeta.
  destruct (negb (isRateLimited v now cd).1 && bool_decide (v = u)) eqn:Hacc;
    [|by apply IH].
  apply andb_prop in Hacc as [Hok Hv]. apply bool_decide_eq_true in Hv as ->.
  assert (Hstamp : (isRateLimited u now cd).2 !! u = Some now).
  { revert Hok. unfold isRateLimited. destruct (cd !! u) as [last|];
      [|cbn; by rewrite lookup_insert_eq].
    destruct (last =? 0); [cbn; by rewrite lookup_insert_eq|].
    destruct (_ <? _); [done|cbn; by rewrite lookup_insert_eq]. }
  destruct (run_commands_spaced_from u rest _ now Hstamp Hnow Hrest) as [Hfirst Hsp].
  cbn [spaced]. split; [|done].
  destruct (run_commands u rest _).1; [done|lia].
Qed.

Lemma rate_limit_spacing_witness :
  spaced 1000
    (run_commands "u1"
       [("u1"%string, 5000); ("u2"%string, 5100); ("u1"%string, 5400);
        ("u1"%string, 6000); ("u1"%string, 6500)] ∅).1.
Proof.
  apply rate_limit_spacing. repeat constructor; cbn; lia.
Defined.

(** X2: the periodic sweep of old cooldown entries is invisible to the
    limiter: at any later reading, a command gets the same verdict and
    leaves the same stamp for its user whether or not the sweep ran. *)
Theorem sweep_cooldowns_transparent (u : string) (now now' : Z) (cd : gmap string Z) :
  now ≤ now' →
  (isRateLimited u now' (sweep_cooldowns now cd)).1 = (isRateLimited u now' cd).1
  ∧ (isRateLimited u now' (sweep_cooldowns now cd)).2 !! u
    = (isRateLimited u now' cd).2 !! u.
Proof.
  intros Hle. unfold isRateLimited, sweep_cooldowns, RATE_LIMIT_MS.
  destruct (cd !! u) as [last|] eqn:Hu.
  - destruct (decide (1000 * 10 < now - last)) as [Hold|Hkeep].
    + assert (Hgone : filter (λ kv : string * Z, ¬ 1000 * 10 < now - kv.2) cd !! u = None).
      { apply map_lookup_filter_None. right. intros x Hx. cbn.
        assert (x = last) as -> by congruence. tauto. }
      rewrite Hgone. destruct (Z.eqb_spec last 0); [cbn; by rewrite !lookup_insert_eq|].
      destruct (Z.ltb_spec (now' - last) 1000); [lia|]. cbn. by rewrite !lookup_insert_eq.
    + assert (Hkept : filter (λ kv : string * Z, ¬ 1000 * 10 < now - kv.2) cd !! u
                      = Some last).
      { by apply map_lookup_filter_Some. }
      rewrite Hkept. destruct (last =? 0); [cbn; by rewrite !lookup_insert_eq|].
      destruct (_ <? _); cbn; [|by rewrite !lookup_insert_eq].
      by rewrite Hkept.
  - assert (Hgone : filter (λ kv : string * Z, ¬ 1000 * 10 < now - kv.2) cd !! u = None).
    { apply map_lookup_filter_None. by left. }
    rewrite Hgone. cbn. by rewrite !lookup_insert_eq.
Qed.

Lemma sweep_cooldowns_transparent_witness :
  (isRateLimited "u1" 20500 (sweep_cooldowns 20000 {["u1"%string := 5000]})).1
  = (isRateLimited "u1" 20500 {["u1"%string := 5000]}).1.
Proof.
  apply (sweep_cooldowns_transparent "u1" 20000 20500 {["u1"%string := 5000]}). lia.
Defined.

End Cooldowns.

(** ** The global request window *)

Section GlobalWindow.

Lemma run_requests_cons (now : Z) (rest : list Z) (g : globalRateLimit) :
  run_requests (now :: rest) g
  = ((checkGlobalRateLimit now g).1 :: (run_requests rest (checkGlobalRateLimit now g).2).1,
     (run_requests rest (checkGlobalRateLimit now g).2).2).
Proof.
  cbn [run_requests]. destruct (checkGlobalRateLimit now g) as [ok g1]. cbn.
  by destruct (run_requests rest g1).
Qed.

Lemma checkGlobalRateLimit_same_window (now : Z) (g : globalRateLimit) :
  now ≤ resetTime g →
  checkGlobalRateLimit now g
  = (requests g <? maxRequests g,
     mkGlobalRateLimit (requests g + 1) (resetTime g) (maxRequests g)).
Proof.
  intros Hle. unfold checkGlobalRateLimit.
  by destruct (Z.ltb_spec (resetTime g) now); [lia|].
Qed.

Lemma run_requests_in_window (nows : list Z) (g : globalRateLimit) :
  Forall (λ now, now ≤ resetTime g) nows →
  (run_requests nows g).1
  = (λ i : nat, bool_decide (requests g + Z.of_nat i < maxRequests g))
      <$> seq 0 (length nows)
  ∧ requests (run_requests nows g).2 = requests g + Z.of_nat (length nows)
  ∧ resetTime (run_requests nows g).2 = resetTime g
  ∧ maxRequests (run_requests nows g).2 = maxRequests g.
Proof.
  revert g. induction nows as [|now rest IH]; intros g Hall.
  - cbn. repeat split; lia.
  - apply Forall_cons in Hall as [Hnow Hall].
    rewrite run_requests_cons, (checkGlobalRateLimit_same_window now g Hnow).
    cbn [fst snd].
    destruct (IH (mkGlobalRateLimit (requests g + 1) (resetTime g) (maxRequests g)) Hall)
      as (Hoks & Hreq & Hreset & Hmax).
    cbn [requests resetTime maxRequests] in *.
    rewrite Hoks, Hreq, Hreset, Hmax.
    split; [|repeat split; cbn [length]; lia].
    cbn [length seq fmap list_fmap]. f_equal.
    + destruct (Z.ltb_spec (requests g) (maxRequests g));
        [by rewrite bool_decide_eq_true_2 by lia|by rewrite bool_decide_eq_false_2 by lia].
    + rewrite <- fmap_S_seq, <- list_fmap_compose. apply list_fmap_ext.
      intros _ i _. cbn. apply bool_decide_ext. lia.
Qed.

(** X3: while no reading passes [resetTime], the [i]-th request of the
    window is let through exactly when the counter it finds,
    [requests + i], is below [maxRequests]; refused requests are counted
    too, and the window's end does not move. *)
Theorem global_window_quota (nows : list Z) (g : globalRateLimit) :
  Forall (λ now, now ≤ resetTime g) nows →
  (run_requests nows g).1
  = (λ i : nat, bool_decide (requests g + Z.of_nat i < maxRequests g))
      <$> seq 0 (length nows)
  ∧ requests (run_requests nows g).2 = requests g + Z.of_nat (length nows)
  ∧ resetTime (run_requests nows g).2 = resetTime g.
Proof.
  intros Hall. destruct (run_requests_in_window nows g Hall) as (H1 & H2 & H3 & _).
  by repeat split.
Qed.

Lemma global_window_quota_witness :
  (run_requests [100; 200; 300] (mkGlobalRateLimit 98 60000 100)).1 = [true; true; false].
Proof.
  destruct (global_window_quota [100; 200; 300] (mkGlobalRateLimit 98 60000 100)) as [H _].
  { repeat constructor; cbn; lia. }
  exact H.
Defined.

(** X4: a request that arrives after [resetTime] opens a window of
    60000 ms at its own reading, whatever the counter was; of the requests
    of that window, itself included, exactly the first [maxRequests] are
    let through. *)
Theorem global_window_fresh (now : Z) (rest : list Z) (g : globalRateLimit) :
  resetTime g < now →
  Forall (λ t, t ≤ now + 60000) rest →
  (run_requests (now :: rest) g).1
  = (λ i : nat, bool_decide (Z.of_nat i < maxRequests g)) <$> seq 0 (S (length rest))
  ∧ resetTime (run_requests (now :: rest) g).2 = now + 60000.
Proof.
  intros Hlt Hall. rewrite run_requests_cons.
  assert (Hc : checkGlobalRateLimit now g
               = (0 <? maxRequests g, mkGlobalRateLimit 1 (now + 60000) (maxRequests g))).
  { unfold checkGlobalRateLimit. by destruct (Z.ltb_spec (resetTime g) now); [|lia]. }
  rewrite Hc. cbn [fst snd].
  destruct (run_requests_in_window rest
              (mkGlobalRateLimit 1 (now + 60000) (maxRequests g)) Hall)
    as (Hoks & _ & Hreset & _).
  cbn [requests resetTime maxRequests] in *. rewrite Hoks, Hreset.
  split; [|done]. cbn [seq fmap list_fmap]. f_equal.
  - destruct (Z.ltb_spec 0 (maxRequests g));
      [by rewrite bool_decide_eq_true_2 by lia|by rewrite bool_decide_eq_false_2 by lia].
  - rewrite <- fmap_S_seq, <- list_fmap_compose. apply list_fmap_ext.
    intros _ i _. cbn. apply bool_decide_ext. lia.
Qed.

Lemma global_window_fresh_witness :
  (run_requests [70000; 70001] (mkGlobalRateLimit 250 60000 1)).1 = [true; false].
Proof.
  destruct (global_window_fresh 70000 [70001] (mkGlobalRateLimit 250 60000 1)) as [H _].
  { cbn. lia. }
  { repeat constructor; cbn; lia. }
  exact H.
Defined.

End GlobalWindow.


(** ** The loop guard *)

Section LoopGuard.

Lemma run_guard_cons (u c : string) (now : Z) (rest : list Z) (tr : gmap string (list Z)) :
  (run_guard u c (now :: rest) tr).1
  = let r := isCommandLooping u c now tr in
    if r.1 then (run_guard u c rest r.2).1 else now :: (run_guard u c rest r.2).1.
Proof.
  cbn [run_guard]. destruct (isCommandLooping u c now tr) as [looping tr1]. cbn.
  destruct (run_guard u c rest tr1) as [log tr2]. by destruct looping.
Qed.

Lemma filter_recent_narrow (a now : Z) (l : list Z) :
  a ≤ now →
  filter (λ time, (now - time < 5000)%Z) (filter (λ time, (a - time < 5000)%Z) l)
  = filter (λ time, (now - time < 5000)%Z) l.
Proof.
  intros Hle. induction l as [|t l IH]; [done|].
  rewrite (filter_cons (λ time, (a - time < 5000)%Z)).
  rewrite (filter_cons (λ time, (now - time < 5000)%Z) t l).
  destruct (decide (a - t < 5000)) as [Ha|Ha].
  - rewrite filter_cons. destruct (decide (now - t < 5000)); by rewrite IH.
  - destruct (decide (now - t < 5000)); [lia|done].
Qed.

(** [H] is the list of stamps ever stored for the key; the guard only
    keeps those it will still look at. *)
Lemma run_guard_window_from (u c : string) (nows : list Z) :
  ∀ (tr : gmap string (list Z)) (t0 : Z) (H : list Z),
    ascending_from t0 nows →
    (∀ now, t0 ≤ now →
       filter (λ time, (now - time < 5000)%Z) (default [] (tr !! (u ++ "-" ++ c)%string))
       = filter (λ time, (now - time < 5000)%Z) H) →
    ∀ l1 a l2,
      (run_guard u c nows tr).1 = l1 ++ a :: l2 →
      (length (filter (λ time, (a - time < 5000)%Z) (H ++ l1)) < 3)%nat.
Proof.
  induction nows as [|now rest IH]; intros tr t0 H Hasc Hinv l1 a l2 Hlog.
  { by destruct l1. }
  destruct Hasc as [Hle Hasc]. rewrite run_guard_cons in Hlog. cbn zeta in Hlog.
  unfold isCommandLooping in Hlog.
  destruct (decide (3 ≤ length (filter (λ time, (now - time < 5000)%Z)
                                   (default [] (tr !! (u ++ "-" ++ c)%string)))))%nat
    as [Hmany|Hfew]; cbn [fst snd] in Hlog.
  - refine (IH tr now H Hasc _ l1 a l2 Hlog).
    intros now' Hn. apply Hinv. lia.
  - destruct l1 as [|b l1'].
    + injection Hlog as <- _. rewrite app_nil_r, <- (Hinv now Hle). lia.
    + injection Hlog as <- Hlog.
      replace (H ++ now :: l1') with ((H ++ [now]) ++ l1') by by rewrite <- app_assoc.
      refine (IH _ now (H ++ [now]) Hasc _ l1' a l2 Hlog).
      intros now' Hn. rewrite lookup_insert_eq. cbn [default from_option id].
      rewrite !filter_app, filter_recent_narrow by done.
      f_equal. apply Hinv. lia.
Qed.

(** X5: over successive calls of the guard for one user and command at
    readings that do not go back, a call is answered "not looping" only if
    fewer than three of the stamps stored before and of the earlier calls
    answered "not looping" are less than 5000 ms old: at most three
    executions pass in any five seconds. *)
Theorem loop_guard_window (u c : string) (nows : list Z) (tr : gmap string (list Z))
    (t0 : Z) (l1 l2 : list Z) (a : Z) :
  ascending_from t0 nows →
  (run_guard u c nows tr).1 = l1 ++ a :: l2 →
  (length (filter (λ time, (a - time < 5000)%Z)
             (default [] (tr !! (u ++ "-" ++ c)%string) ++ l1)) < 3)%nat.
Proof.
  intros Hasc Hlog.
  by apply (run_guard_window_from u c nows tr t0 _ Hasc (λ _ _, eq_refl) l1 a l2).
Qed.

Lemma loop_guard_window_witness :
  (run_guard "u1" "!start" [1000; 1500; 2000; 2500; 6200] ∅).1 = [1000; 1500; 2000; 6200]
  ∧ (length (filter (λ time, (6200 - time < 5000)%Z) ([] ++ [1000; 1500; 2000])%Z) < 3)%nat.
Proof.
  assert (Hlog : (run_guard "u1" "!start" [1000; 1500; 2000; 2500; 6200] ∅).1
                 = [1000; 1500; 2000] ++ 6200 :: []) by (vm_compute; reflexivity).
  split; [exact Hlog|].
  pose proof (loop_guard_window "u1" "!start" [1000; 1500; 2000; 2500; 6200] ∅ 0
                [1000; 1500; 2000] [] 6200) as Hw.
  rewrite lookup_empty in Hw. apply Hw; [cbn; lia|exact Hlog].
Defined.

Lemma tracker_bounded_empty : tracker_bounded ∅.
Proof. intros key l. by rewrite lookup_empty. Qed.

(** X6: the guard and its sweep never let a key hold more than three
    stamps, starting from any tracker that respects the bound (the empty
    one does). *)
Theorem tracker_stays_bounded (u c : string) (now : Z) (tr : gmap string (list Z)) :
  tracker_bounded tr →
  tracker_bounded (isCommandLooping u c now tr).2
  ∧ tracker_bounded (sweep_tracker now tr).
Proof.
  intros Hb. split.
  - unfold isCommandLooping. case_decide as Hlen; [done|]. cbn [snd].
    intros key l. rewrite lookup_insert_Some.
    intros [[_ <-]|[_ Hl]]; [|by eapply Hb].
    rewrite length_app. cbn. lia.
  - intros key l. unfold sweep_tracker. rewrite lookup_omap.
    destruct (tr !! key) as [ex|] eqn:Hk; [|done]. cbn.
    case_decide; [done|]. intros [= <-].
    etrans; [apply length_filter|]. by eapply Hb.
Qed.

Lemma tracker_stays_bounded_witness :
  tracker_bounded (isCommandLooping "u1" "!start" 1000 ∅).2.
Proof.
  destruct (tracker_stays_bounded "u1" "!start" 1000 ∅ tracker_bounded_empty) as [H _].
  exact H.
Defined.

End LoopGuard.

(** ** Microphone history *)

Section MicrophoneHistory.

Lemma filter_other_users (uid : string) (l : list micEntry) :
  uid ∉ mic_userId <$> l → filter (λ entry, mic_userId entry ≠ uid) l = l.
Proof.
  induction l as [|x l IH]; intros Hn; [done|].
  rewrite fmap_cons, not_elem_of_cons in Hn. destruct Hn as [Hx Hn].
  rewrite filter_cons_True by (by intros <-). by rewrite IH.
Qed.

(** In a history without duplicate users, deleting the entry that
    [findIndex] finds leaves exactly the entries of the other users. *)
Lemma history_drop_filter (uid : string) (history : list micEntry) :
  NoDup (mic_userId <$> history) →
  match list_find (λ entry, mic_userId entry = uid) history with
  | Some (existingIndex, _) => delete existingIndex history
  | None => history
  end = filter (λ entry, mic_userId entry ≠ uid) history.
Proof.
  induction history as [|x l IH]; intros Hnd; [done|].
  rewrite fmap_cons in Hnd. apply NoDup_cons in Hnd as [Hx Hnd].
  specialize (IH Hnd). cbn [list_find]. case_decide as Hp.
  - rewrite filter_cons_False by (by intros ?).
    rewrite filter_other_users; [done|]. by rewrite <- Hp.
  - rewrite filter_cons_True by done. rewrite <- IH.
    by destruct (list_find _ l) as [[i y]|].
Qed.

(** X7: recording an unmute puts the user at the head of the guild's
    history and keeps the entries of the other users, all of them and in
    their order, up to nine: the tenth is dropped, which happens only when
    the history held ten other users.  Every history stays free of
    duplicate users and at most ten long; other guilds are not touched. *)
Theorem addToMicrophoneHistory_keeps_order (g uid uname : string) (now : Z)
    (mh : gmap string (list micEntry)) :
  histories_ok mh →
  histories_ok (addToMicrophoneHistory g uid uname now mh)
  ∧ getMicrophoneHistory g (addToMicrophoneHistory g uid uname now mh)
    = mkMicEntry uid uname now
      :: take 9 (filter (λ entry, mic_userId entry ≠ uid) (getMicrophoneHistory g mh))
  ∧ ((uid ∈ mic_userId <$> getMicrophoneHistory g mh
      ∨ length (getMicrophoneHistory g mh) < 10)%nat →
     getMicrophoneHistory g (addToMicrophoneHistory g uid uname now mh)
     = mkMicEntry uid uname now
       :: filter (λ entry, mic_userId entry ≠ uid) (getMicrophoneHistory g mh))
  ∧ (∀ g', g' ≠ g → addToMicrophoneHistory g uid uname now mh !! g' = mh !! g').
Proof.
  intros Hok. unfold addToMicrophoneHistory, getMicrophoneHistory.
  assert (Hold : history_ok (default [] (mh !! g))).
  { destruct (mh !! g) as [h|] eqn:Hg; [by apply (Hok g h)|].
    split; [constructor|cbn; lia]. }
  destruct Hold as [Hnd Hlen].
  rewrite (history_drop_filter uid _ Hnd).
  set (old := default [] (mh !! g)) in *.
  set (others := filter (λ entry, mic_userId entry ≠ uid) old).
  set (new := mkMicEntry uid uname now).
  assert (Hsub : others `sublist_of` old) by apply sublist_filter.
  assert (Hfinal : (if decide (10 < length (new :: others))%nat
                    then take 10 (new :: others) else new :: others)
                   = new :: take 9 others).
  { case_decide as Hl; [done|]. cbn in Hl. rewrite take_ge by lia. done. }
  rewrite Hfinal, lookup_insert_eq. cbn [default from_option id].
  assert (Hnot : uid ∉ mic_userId <$> others).
  { subst others. rewrite list_elem_of_fmap. intros (e & -> & He).
    apply list_elem_of_filter in He as [He _]. done. }
  split; [|split; [done|split]].
  - intros g' h. rewrite lookup_insert_Some. intros [[_ <-]|[_ Hg']]; [|by eapply Hok].
    split.
    + cbn. apply NoDup_cons. split.
      * intros Hin. apply Hnot. eapply elem_of_sublist; [exact Hin|].
        apply fmap_sublist, sublist_take.
      * eapply sublist_NoDup; [exact Hnd|].
        apply fmap_sublist. etrans; [apply sublist_take|done].
    + cbn. rewrite length_take. lia.
  - intros Hroom. f_equal. apply take_ge.
    destruct Hroom as [Hin|Hlt].
    + apply list_elem_of_fmap in Hin as (e & He & Hin).
      assert (Hshort : (length others < length old)%nat); [|lia].
      apply (length_filter_lt _ _ e); [done|]. by intros ?.
    + apply sublist_length in Hsub. lia.
  - intros g' Hne. by rewrite lookup_insert_ne.
Qed.

Lemma addToMicrophoneHistory_keeps_order_witness :
  getMicrophoneHistory "g1"
    (addToMicrophoneHistory "g1" "u2" "Bea" 300
       (addToMicrophoneHistory "g1" "u1" "Al" 200
          (addToMicrophoneHistory "g1" "u2" "Bea" 100 ∅)))
  = [mkMicEntry "u2" "Bea" 300; mkMicEntry "u1" "Al" 200].
Proof.
  assert (H0 : histories_ok (∅ : gmap string (list micEntry))).
  { intros g h. by rewrite lookup_empty. }
  destruct (addToMicrophoneHistory_keeps_order "g1" "u2" "Bea" 100 ∅ H0) as (H1 & _).
  destruct (addToMicrophoneHistory_keeps_order "g1" "u1" "Al" 200 _ H1) as (H2 & _).
  destruct (addToMicrophoneHistory_keeps_order "g1" "u2" "Bea" 300 _ H2)
    as (_ & Heq & _).
  rewrite Heq. vm_compute. reflexivity.
Defined.

(** X8: the sweep of the histories keeps exactly the entries younger
    than 24 hours, in their order, never stores an empty history, and
    keeps the histories free of duplicates and at most ten long. *)
Theorem sweep_microphone_history_keeps (now : Z) (mh : gmap string (list micEntry)) :
  histories_ok mh →
  histories_ok (sweep_microphone_history now mh)
  ∧ (∀ g,
       getMicrophoneHistory g (sweep_microphone_history now mh)
       = filter (λ entry, now - mic_timestamp entry < 86400000)
           (getMicrophoneHistory g mh))
  ∧ (∀ g, sweep_microphone_history now mh !! g ≠ Some []).
Proof.
  intros Hok.
  assert (Hlook : ∀ g, sweep_microphone_history now mh !! g
            = match mh !! g with
              | Some h =>
                  let f := filter (λ entry, now - mic_timestamp entry < 86400000) h in
                  if decide (length f = 0%nat) then None else Some f
              | None => None
              end).
  { intros g. unfold sweep_microphone_history. rewrite lookup_omap.
    by destruct (mh !! g). }
  split; [|split].
  - intros g h. rewrite Hlook. destruct (mh !! g) as [h0|] eqn:Hg; [|done].
    cbn zeta. case_decide; [done|]. intros [= <-].
    destruct (Hok g h0 Hg) as [Hnd Hlen]. split.
    + eapply sublist_NoDup; [exact Hnd|apply fmap_sublist, sublist_filter].
    + etrans; [apply length_filter|done].
  - intros g. unfold getMicrophoneHistory. rewrite Hlook.
    destruct (mh !! g) as [h0|]; [|done]. cbn zeta.
    case_decide as Hz; [|done]. cbn. symmetry. by apply nil_length_inv.
  - intros g. rewrite Hlook. destruct (mh !! g) as [h0|]; [|done]. cbn zeta.
    case_decide as Hz; [done|]. intros [= Hnil]. by rewrite Hnil in Hz.
Qed.

Lemma sweep_microphone_history_keeps_witness :
  getMicrophoneHistory "g1"
    (sweep_microphone_history 90000000
       {["g1"%string := [mkMicEntry "u1" "Al" 80000000; mkMicEntry "u2" "Bea" 1000]]})
  = filter (λ entry, 90000000 - mic_timestamp entry < 86400000)
      (getMicrophoneHistory "g1"
         {["g1"%string := [mkMicEntry "u1" "Al" 80000000; mkMicEntry "u2" "Bea" 1000]]}).
Proof.
  destruct (sweep_microphone_history_keeps 90000000
              {["g1"%string := [mkMicEntry "u1" "Al" 80000000; mkMicEntry "u2" "Bea" 1000]]})
    as (_ & H & _).
  - intros g h Hg. apply lookup_singleton_Some in Hg as [_ <-].
    split; [|cbn; lia]. cbn. apply NoDup_cons. split; [|apply NoDup_singleton].
    rewrite list_elem_of_singleton. discriminate.
  - apply H.
Defined.

End MicrophoneHistory.

(** ** Message flags *)

Section MessageFlags.

Lemma flags_lookup_set (g c mid g' : string) (st : state) :
  messageFlagsForCleanup (setMessageFlag g c mid st) !! g'
  = if decide (g = g')
    then Some (<[c := mid]> (default ∅ (messageFlagsForCleanup st !! g)))
    else messageFlagsForCleanup st !! g'.
Proof. unfold setMessageFlag. cbn. apply lookup_insert. Qed.

(** X9: a flag that was set is read back (an empty message id reads as
    no flag), a flag that was cleared reads as no flag, and neither
    operation changes what is read for another channel or guild. *)
Theorem message_flag_round_trip (g c mid g' c' : string) (st : state) :
  getMessageFlag g c (setMessageFlag g c mid st)
  = (if decide (mid = EmptyString) then None else Some mid)
  ∧ getMessageFlag g c (clearMessageFlag g c st) = None
  ∧ ((g', c') ≠ (g, c) →
     getMessageFlag g' c' (setMessageFlag g c mid st) = getMessageFlag g' c' st
     ∧ getMessageFlag g' c' (clearMessageFlag g c st) = getMessageFlag g' c' st).
Proof.
  split; [|split].
  - unfold getMessageFlag. rewrite flags_lookup_set, decide_True by done.
    by rewrite lookup_insert_eq.
  - unfold getMessageFlag, clearMessageFlag. cbn.
    destruct (messageFlagsForCleanup st !! g) as [inner|] eqn:Hg; [|by rewrite Hg].
    case_decide; [by rewrite lookup_delete_eq|].
    by rewrite lookup_insert_eq, lookup_delete_eq.
  - intros Hne. split.
    + unfold getMessageFlag. rewrite flags_lookup_set.
      destruct (decide (g = g')) as [<-|Hg]; [|done].
      assert (c ≠ c') by congruence. rewrite lookup_insert_ne by done.
      by destruct (messageFlagsForCleanup st !! g).
    + unfold getMessageFlag, clearMessageFlag. cbn.
      destruct (messageFlagsForCleanup st !! g) as [inner|] eqn:Hg; [|done].
      destruct (decide (g = g')) as [<-|Hgg].
      * assert (Hc : c ≠ c') by congruence. rewrite Hg. case_decide as Hsz.
        -- rewrite lookup_delete_eq.
           apply map_size_empty_inv in Hsz.
           assert (Hl : delete c inner !! c' = None) by (by rewrite Hsz).
           rewrite lookup_delete_ne in Hl by done. by rewrite Hl.
        -- by rewrite lookup_insert_eq, lookup_delete_ne.
      * case_decide; [by rewrite lookup_delete_ne|by rewrite lookup_insert_ne].
Qed.

Lemma message_flag_round_trip_witness :
  getMessageFlag "g1" "c2" (setMessageFlag "g1" "c1" "m1" initial_state)
  = getMessageFlag "g1" "c2" initial_state.
Proof.
  destruct (message_flag_round_trip "g1" "c1" "m1" "g1" "c2" initial_state)
    as (_ & _ & H).
  destruct H as [H _]; [congruence|exact H].
Defined.

(** X10: setting and clearing flags never leaves a guild mapped to an
    empty inner map. *)
Theorem message_flags_stay_tidy (g c mid : string) (st : state) :
  flags_tidy st →
  flags_tidy (setMessageFlag g c mid st) ∧ flags_tidy (clearMessageFlag g c st).
Proof.
  intros Ht. split.
  - intros g' inner. rewrite flags_lookup_set. case_decide; [|by apply Ht].
    intros [= <-] Hempty.
    assert (Hl : (<[c := mid]> (default ∅ (messageFlagsForCleanup st !! g)) : gmap string string)
                 !! c = None) by (by rewrite Hempty).
    by rewrite lookup_insert_eq in Hl.
  - intros g' inner. unfold clearMessageFlag. cbn.
    destruct (messageFlagsForCleanup st !! g) as [inner0|] eqn:Hg; [|by apply Ht].
    case_decide as Hsz.
    + rewrite lookup_delete_Some. intros [_ Hg']. by eapply Ht.
    + rewrite lookup_insert_Some. intros [[_ <-]|[_ Hg']]; [|by eapply Ht].
      intros Hempty. apply Hsz. by rewrite Hempty, map_size_empty.
Qed.

Lemma message_flags_stay_tidy_witness :
  flags_tidy (clearMessageFlag "g1" "c1" (setMessageFlag "g1" "c1" "m1" initial_state)).
Proof.
  assert (H0 : flags_tidy initial_state).
  { intros g inner. cbn. by rewrite lookup_empty. }
  destruct (message_flags_stay_tidy "g1" "c1" "m1" initial_state H0) as [H1 _].
  destruct (message_flags_stay_tidy "g1" "c1" "m1" _ H1) as [_ H2]. exact H2.
Defined.

End MessageFlags.

(** ** Collecting the messages to delete *)

Section Collect.

Lemma collect_found (flag : string) (l : list chatMessage) (acc : list chatMessage) :
  foldl (collect_step flag) (true, acc) l
  = (true, acc ++ filter (λ m, fromBot m = true ∧ message_id m ≠ flag) l).
Proof.
  revert acc. induction l as [|m l IH]; intros acc; cbn [foldl].
  { by rewrite app_nil_r. }
  rewrite filter_cons. unfold collect_step at 2.
  destruct (decide (message_id m = flag)) as [Hm|Hm].
  - rewrite IH. rewrite decide_False by tauto. done.
  - destruct (fromBot m) eqn:Hb.
    + rewrite IH, decide_True by done. by rewrite <- app_assoc.
    + rewrite IH. rewrite decide_False by (intros [? _]; done). done.
Qed.

Lemma collect_not_found (flag : string) (l : list chatMessage) :
  Forall (λ m, message_id m ≠ flag) l →
  foldl (collect_step flag) (false, []) l = (false, []).
Proof.
  induction 1 as [|m l Hm _ IH]; [done|].
  cbn [foldl]. unfold collect_step at 2. by rewrite decide_False.
Qed.

(** X11: the messages collected for deletion are exactly the bot's own
    messages that come after the first occurrence of the flag message,
    the flag message itself never among them; when the flag message is not
    in the list, nothing is collected. *)
Theorem messagesToDelete_after_flag (flag : string) (before after : list chatMessage)
    (f : chatMessage) (l : list chatMessage) :
  (Forall (λ m, message_id m ≠ flag) l → messagesToDelete flag l = [])
  ∧ (Forall (λ m, message_id m ≠ flag) before →
     message_id f = flag →
     messagesToDelete flag (before ++ f :: after)
     = filter (λ m, fromBot m = true ∧ message_id m ≠ flag) after).
Proof.
  unfold messagesToDelete. split.
  - intros Hl. by rewrite collect_not_found.
  - intros Hb Hf. rewrite foldl_app, collect_not_found by done.
    cbn [foldl]. unfold collect_step at 2. rewrite decide_True by done.
    by rewrite collect_found.
Qed.

Lemma messagesToDelete_after_flag_witness :
  messagesToDelete "m2"
    ([mkChatMessage "m1" true 10] ++ mkChatMessage "m2" true 20
       :: [mkChatMessage "m3" false 30; mkChatMessage "m4" true 40])
  = filter (λ m, fromBot m = true ∧ message_id m ≠ "m2"%string)
      [mkChatMessage "m3" false 30; mkChatMessage "m4" true 40].
Proof.
  destruct (messagesToDelete_after_flag "m2" [mkChatMessage "m1" true 10]
              [mkChatMessage "m3" false 30; mkChatMessage "m4" true 40]
              (mkChatMessage "m2" true 20) []) as [_ H].
  apply H; [|reflexivity]. repeat constructor. cbn. discriminate.
Defined.

End Collect.

(** ** Displayed durations *)

Section Display.



End Display.

(** ** Starting through the surfaces *)

Section Surfaces.

Lemma canCreateTimer_registry (g : string) (st st' : state) :
  activeTimers st' = activeTimers st → canCreateTimer g st' = canCreateTimer g st.
Proof. intros Heq. unfold canCreateTimer. by rewrite Heq. Qed.

Lemma clear_old_timeouts_registry (c : string) (st : state) :
  activeTimers (clear_old_timeouts c st) = activeTimers st.
Proof.
  unfold clear_old_timeouts. destruct (activeTimers st !! c) as [t|]; [|done].
  by destruct (timeoutId t), (warningTimeoutId t).
Qed.

Lemma started_inv (r : option timer * state) (t : timer) (st' : state) :
  started r = (Started t, st') → r = (Some t, st').
Proof. destruct r as [[t0|] s]; cbn; [|done]. by intros [= <- <-]. Qed.

(** X13: a timer that the [!cs] command starts has a duration between
    1000 ms and 24 hours, the one its argument (or the stored default)
    parses to; it is resident on the channel, running, and ends
    [duration] after the clock reading. *)
Theorem cs_command_started (c g args reply : string) (now nowW : Z) (st st' : state)
    (t : timer) :
  cs_command c g args reply now nowW st = (Started t, st') →
  Duration.parseTime (Some args) g (defaultTimes st) = Some (duration t)
  ∧ MIN_TIMER_DURATION ≤ duration t ≤ MAX_TIMER_DURATION
  ∧ activeTimers st' !! c = Some t
  ∧ guildId t = g
  ∧ isPaused t = false
  ∧ endTime t = now + duration t.
Proof.
  unfold cs_command, MIN_TIMER_DURATION, MAX_TIMER_DURATION.
  destruct (Duration.parseTime _ _ _) as [[d|]|]; [|done|done].
  destruct (Z.ltb_spec d 1000); [done|].
  destruct (Z.ltb_spec (24 * 60 * 60 * 1000) d); [done|].
  intros Hs. apply started_inv in Hs.
  set (label := match args with EmptyString => _ | _ => _ end) in Hs.
  destruct (canCreateTimer g (clear_old_timeouts c st)) eqn:Hcan.
  - destruct (startTimer_accepted c g d label (Some reply) now nowW _ Hcan)
      as (t' & Ht' & Hl & Hd & Hg & He & Hp).
    rewrite Hs in Ht', Hl. cbn in Ht', Hl. assert (t' = t) as -> by congruence.
    assert (Hd' : duration t = d) by exact Hd.
    assert (He' : endTime t = now + d) by exact He.
    rewrite Hd', He'. split; [done|]. split; [lia|]. by repeat (split; [done|]).
  - rewrite startTimer_rejected in Hs by done. done.
Qed.

Lemma cs_command_started_witness :
  ∃ t st',
    cs_command "c1" "g1" "90s" "m1" 0 0 initial_state = (Started t, st')
    ∧ duration t = 90000.
Proof.
  destruct (cs_command "c1" "g1" "90s" "m1" 0 0 initial_state) as [o st'] eqn:Hc.
  assert (Ho : ∃ t, o = Started t).
  { vm_compute in Hc. injection Hc as <- _. eauto. }
  destruct Ho as [t ->].
  destruct (cs_command_started "c1" "g1" "90s" "m1" 0 0 initial_state st' t Hc)
    as (Hp & _).
  exists t, st'. split; [reflexivity|].
  assert (Hparse : Duration.parseTime (Some "90s"%string) "g1"%string
                     (defaultTimes initial_state) = Some 90000) by reflexivity.
  rewrite Hparse in Hp. congruence.
Defined.

(** X14: after [!set cs] has accepted a duration, that duration is
    within 1000 ms and 24 hours, it is the one [parseTime] falls back to
    for the guild, and a start button pressed next in that guild (below
    the caps) starts a timer of exactly that duration. *)
Theorem set_default_then_start (c g args : string) (messageToStore : option string)
    (now nowW d : Z) (st st1 : state) :
  set_cs_command g args st = (DefaultSet d, st1) →
  MIN_TIMER_DURATION ≤ d ≤ MAX_TIMER_DURATION
  ∧ Duration.parseTime None g (defaultTimes st1) = Some d
  ∧ (canCreateTimer g st = true →
     ∃ t, (timer_start c g messageToStore now nowW st1).1 = Started t
          ∧ duration t = d ∧ endTime t = now + d).
Proof.
  unfold set_cs_command, MIN_TIMER_DURATION, MAX_TIMER_DURATION.
  destruct (Duration.parseTime _ _ _) as [[d'|]|]; [|done|done].
  destruct (Z.ltb_spec d' 1000); [done|].
  destruct (Z.ltb_spec (24 * 60 * 60 * 1000) d'); [done|].
  intros [= -> <-].
  assert (Hdef : Duration.default_for (defaultTimes (set_defaultTimes <[g:=d]> st)) g = d).
  { unfold Duration.default_for. cbn. rewrite lookup_insert_eq.
    destruct (Z.eqb_spec d 0); [lia|done]. }
  split; [lia|]. split; [unfold Duration.parseTime; by rewrite Hdef|].
  intros Hcan. unfold timer_start. rewrite Hdef.
  match goal with
  | |- context [startTimer c g d ?l ?m now nowW ?s] =>
      destruct (startTimer_accepted c g d l m now nowW s) as (t & Ht & _ & Hd & _ & He & _)
  end.
  { erewrite canCreateTimer_registry; [exact Hcan|].
    by rewrite clear_old_timeouts_registry. }
  exists t. destruct (startTimer _ _ _ _ _ _ _ _) as [[t0|] s]; cbn in *; [|done].
  injection Ht as ->. done.
Qed.

Lemma set_default_then_start_witness :
  ∃ t, (timer_start "c1" "g1" None 0 0 (set_cs_command "g1" "2m" initial_state).2).1
       = Started t
       ∧ duration t = 120000.
Proof.
  destruct (set_default_then_start "c1" "g1" "2m" None 0 0 120000 initial_state
              (set_cs_command "g1" "2m" initial_state).2) as (_ & _ & H).
  { reflexivity. }
  destruct H as (t & Ht & Hd & _); [reflexivity|].
  exists t. split; [exact Ht|exact Hd].
Defined.

End Surfaces.

(** ** Bulk cleanup *)

Section BulkCleanup.

Lemma safeCleanupTimer_queue (t : timer) (st : state) (h : positive) (p : pending) :
  scheduled (safeCleanupTimer t st) !! h = Some p → scheduled st !! h = Some p.
Proof.
  unfold safeCleanupTimer.
  assert (H3 : scheduled (clearHandle (updateIntervalId t)
                 (clearHandle (warningTimeoutId t) (clearHandle (timeoutId t) st))) !! h
               = Some p → scheduled st !! h = Some p).
  { destruct (updateIntervalId t), (warningTimeoutId t), (timeoutId t); cbn;
      rewrite ?lookup_delete_Some; tauto. }
  by case_decide.
Qed.

Lemma safeCleanupTimer_registry (t : timer) (st : state) :
  activeTimers (safeCleanupTimer t st) = activeTimers st.
Proof.
  unfold safeCleanupTimer.
  by case_decide; destruct (updateIntervalId t), (warningTimeoutId t), (timeoutId t).
Qed.

Lemma not_armed_sub (h : option positive) (st st' : state) :
  (∀ i p, scheduled st' !! i = Some p → scheduled st !! i = Some p) →
  ¬ is_armed h st → ¬ is_armed h st'.
Proof.
  intros Hsub. destruct h as [i|]; [|done]. cbn. intros Hn [p Hp]. apply Hn. eauto.
Qed.

Lemma cleanup_fold (st : state) (m : gmap string timer) :
  let r := map_fold (λ _ t acc, safeCleanupTimer t acc) st m in
  (∀ h p, scheduled r !! h = Some p → scheduled st !! h = Some p)
  ∧ activeTimers r = activeTimers st
  ∧ ∀ c t, m !! c = Some t →
      ¬ is_armed (timeoutId t) r ∧ ¬ is_armed (warningTimeoutId t) r
      ∧ ¬ is_armed (updateIntervalId t) r.
Proof.
  cbn zeta.
  apply (map_fold_weak_ind
    (λ r m, (∀ h p, scheduled r !! h = Some p → scheduled st !! h = Some p)
            ∧ activeTimers r = activeTimers st
            ∧ ∀ c t, m !! c = Some t →
                ¬ is_armed (timeoutId t) r ∧ ¬ is_armed (warningTimeoutId t) r
                ∧ ¬ is_armed (updateIntervalId t) r)).
  - split; [done|]. split; [done|]. intros c t. by rewrite lookup_empty.
  - intros i x m' r Hi (Hsub & Hreg & Hall). split; [|split].
    + intros h p Hp. by apply Hsub, (safeCleanupTimer_queue x).
    + by rewrite safeCleanupTimer_registry.
    + intros c t. rewrite lookup_insert_Some. intros [[_ <-]|[_ Hc]].
      * apply safeCleanupTimer_cancels.
      * destruct (Hall c t Hc) as (H1 & H2 & H3).
        repeat split; (eapply not_armed_sub; [apply safeCleanupTimer_queue|done]).
Qed.

(** X15: the shutdown cleanup empties the registry, takes the expiry,
    warning and refresh handles of every timer that was resident out of the
    queue, and queues nothing. *)
Theorem cleanupAllTimers_cancels_all (st : state) :
  activeTimers (cleanupAllTimers st) = ∅
  ∧ (∀ c t, activeTimers st !! c = Some t →
       ¬ is_armed (timeoutId t) (cleanupAllTimers st)
       ∧ ¬ is_armed (warningTimeoutId t) (cleanupAllTimers st)
       ∧ ¬ is_armed (updateIntervalId t) (cleanupAllTimers st))
  ∧ (∀ h p, scheduled (cleanupAllTimers st) !! h = Some p → scheduled st !! h = Some p).
Proof.
  destruct (cleanup_fold st (activeTimers st)) as (Hsub & _ & Hall).
  unfold cleanupAllTimers. split; [done|]. split; [|exact Hsub].
  intros c t Hc. destruct (Hall c t Hc) as (H1 & H2 & H3).
  repeat split; (eapply not_armed_queue; [|done]); done.
Qed.

Lemma stopTimer_lookup (c c' : string) (now : Z) (st : state) :
  activeTimers (stopTimer c now st).2 !! c'
  = if decide (c = c') then None else activeTimers st !! c'.
Proof.
  unfold stopTimer. destruct (activeTimers st !! c) as [t|] eqn:Hc.
  - assert (Hreg : activeTimers
                     (if decide (guildId t = EmptyString)
                      then set_timerUpdateThrottle (delete c)
                             (set_activeTimers (delete c)
                                (clearHandle (updateIntervalId t)
                                   (clearHandle (warningTimeoutId t)
                                      (clearHandle (timeoutId t) st))))
                      else set_timerMessages (forget_message (guildId t) c)
                             (set_timerUpdateThrottle (delete c)
                                (set_activeTimers (delete c)
                                   (clearHandle (updateIntervalId t)
                                      (clearHandle (warningTimeoutId t)
                                         (clearHandle (timeoutId t) st))))))
                   = delete c (activeTimers st)).
    { by case_decide; destruct (updateIntervalId t), (warningTimeoutId t), (timeoutId t). }
    cbn. rewrite Hreg. apply lookup_delete.
  - cbn. case_decide; [by subst|done].
Qed.

Lemma stop_guild_fold (g : string) (now : Z) (st : state) (m : gmap string timer) :
  let r := map_fold
             (λ c t acc,
                if decide (guildId t = g) then
                  match stopTimer c now acc.2 with
                  | (Some _, st') => (S acc.1, st')
                  | (None, st') => (acc.1, st')
                  end
                else acc) (0%nat, st) m in
  ∀ c, activeTimers r.2 !! c
       = match m !! c with
         | Some t => if decide (guildId t = g) then None else activeTimers st !! c
         | None => activeTimers st !! c
         end.
Proof.
  cbn zeta.
  apply (map_fold_weak_ind
    (λ (r : nat * state) m,
       ∀ c, activeTimers r.2 !! c
            = match m !! c with
              | Some t => if decide (guildId t = g) then None else activeTimers st !! c
              | None => activeTimers st !! c
              end)).
  - intros c. by rewrite lookup_empty.
  - intros i x m' r Hi IH c. case_decide as Hg.
    + assert (Hl : activeTimers
                     (match stopTimer i now r.2 with
                      | (Some _, st') => (S r.1, st')
                      | (None, st') => (r.1, st')
                      end).2 !! c
                   = activeTimers (stopTimer i now r.2).2 !! c).
      { by destruct (stopTimer i now r.2) as [[?|] ?]. }
      rewrite Hl, stopTimer_lookup. destruct (decide (i = c)) as [->|Hne].
      * by rewrite lookup_insert_eq, decide_True.
      * by rewrite lookup_insert_ne, IH.
    + rewrite IH. destruct (decide (i = c)) as [->|Hne].
      * by rewrite lookup_insert_eq, Hi, decide_False.
      * by rewrite lookup_insert_ne.
Qed.

(** X16: the loop that stops the timers of a guild removes exactly the
    resident timers of that guild: afterwards none of them is resident
    and every timer of another guild is still resident, unchanged. *)
Theorem stop_guild_timers_exact (g : string) (now : Z) (st : state) (c : string) :
  activeTimers (stop_guild_timers g now st).2 !! c
  = match activeTimers st !! c with
    | Some t => if decide (guildId t = g) then None else Some t
    | None => None
    end.
Proof.
  unfold stop_guild_timers.
  rewrite (stop_guild_fold g now st (activeTimers st) c).
  destruct (activeTimers st !! c) as [t|] eqn:Hc; [|done]. by case_decide.
Qed.

(** X17: the sweep of the status messages forgets exactly the messages
    of channels without a resident timer, leaves no guild with an empty
    inner map, and does not touch the registry or the queue. *)
Theorem sweep_timer_messages_exact (g c : string) (st : state) :
  message_target g c (sweep_timer_messages st)
  = (if decide (is_Some (activeTimers st !! c)) then message_target g c st else None)
  ∧ timerMessages (sweep_timer_messages st) !! g ≠ Some ∅
  ∧ activeTimers (sweep_timer_messages st) = activeTimers st
  ∧ scheduled (sweep_timer_messages st) = scheduled st.
Proof.
  unfold message_target, sweep_timer_messages. cbn. rewrite lookup_omap.
  destruct (timerMessages st !! g) as [inner|]; cbn.
  - split; [|split; [|done]].
    + case_decide as Hsz.
      * apply map_size_empty_inv in Hsz.
        case_decide as Hres; [|done].
        destruct (inner !! c) as [md|] eqn:Hin; [|done].
        assert (Hk : filter (λ cm : string * messageData,
                               is_Some (activeTimers st !! cm.1)) inner !! c = Some md)
          by (by apply map_lookup_filter_Some).
        by rewrite Hsz in Hk.
      * destruct (inner !! c) as [md|] eqn:Hin.
        -- case_decide as Hres.
           ++ by rewrite (proj2 (map_lookup_filter_Some _ inner c md) (conj Hin Hres)).
           ++ assert (Hk : filter (λ cm : string * messageData,
                                     is_Some (activeTimers st !! cm.1)) inner !! c = None).
              { apply map_lookup_filter_None. right. intros x _. done. }
              by rewrite Hk.
        -- assert (Hk : filter (λ cm : string * messageData,
                                  is_Some (activeTimers st !! cm.1)) inner !! c = None).
           { apply map_lookup_filter_None. by left. }
           rewrite Hk. by case_decide.
    + case_decide as Hsz; [done|]. intros [= Hempty].
      apply Hsz. by rewrite Hempty, map_size_empty.
  - split; [by case_decide|]. by repeat split.
Qed.

End BulkCleanup.

(** ** What every reachable state satisfies *)

Section Invariant.

Lemma guildTimerCount_fmap (g : string) (m : gmap string timer) :
  guildTimerCount g m
  = size (filter (λ kv : string * string, kv.2 = g) (guildId <$> m)).
Proof.
  by rewrite guildTimerCount_filter, map_filter_fmap, map_size_fmap.
Qed.

Lemma caps_ok_mono (st st' : state) :
  (∀ c t', activeTimers st' !! c = Some t' →
     ∃ t, activeTimers st !! c = Some t ∧ guildId t = guildId t') →
  caps_ok st → caps_ok st'.
Proof.
  intros Hsub [Hsz Hg].
  assert (Hf : guildId <$> activeTimers st' ⊆ guildId <$> activeTimers st).
  { apply map_subseteq_spec. intros c g. rewrite !lookup_fmap_Some.
    intros (t' & <- & Ht'). destruct (Hsub c t' Ht') as (t & Ht & Hgt). eauto. }
  split.
  - rewrite <- (map_size_fmap guildId (activeTimers st')).
    rewrite <- (map_size_fmap guildId (activeTimers st)) in Hsz.
    etrans; [by apply map_subseteq_size|done].
  - intros g. etrans; [|apply (Hg g)]. rewrite !guildTimerCount_fmap.
    by apply map_subseteq_size, map_filter_subseteq_mono.
Qed.

Lemma caps_ok_insert (c g : string) (t' : timer) (st st' : state) :
  canCreateTimer g st = true →
  activeTimers st' = <[c := t']> (activeTimers st) →
  guildId t' = g →
  caps_ok st → caps_ok st'.
Proof.
  unfold canCreateTimer. intros Hcan Hreg Hgt [Hsz Hg].
  case_decide as H1; [done|]. case_decide as H2; [done|]. clear Hcan.
  unfold caps_ok. rewrite Hreg. split.
  - rewrite map_size_insert. destruct (activeTimers st !! c); cbn; lia.
  - intros g0. rewrite guildTimerCount_filter, map_filter_insert.
    case_decide as Hp; cbn in Hp.
    + rewrite map_size_insert. subst g0. rewrite Hgt.
      rewrite guildTimerCount_filter in H2.
      destruct (filter _ _ !! c); cbn; lia.
    + rewrite map_filter_delete.
      specialize (Hg g0). rewrite guildTimerCount_filter in Hg.
      pose proof (map_size_delete c (filter (λ kt : string * timer, guildId kt.2 = g0)
                                        (activeTimers st))) as Hd.
      destruct (filter _ _ !! c); cbn in Hd; lia.
Qed.

Lemma queue_le_refl (st : state) :
  (∀ h p, scheduled st !! h = Some p → (h < nextHandle st)%positive) → queue_le st st.
Proof. intros Hf. split; [lia|]. split; [done|]. by intros h p _. Qed.

Lemma queue_le_same (st0 st st' : state) :
  scheduled st' = scheduled st → nextHandle st' = nextHandle st →
  queue_le st0 st → queue_le st0 st'.
Proof. unfold queue_le. intros -> ->. done. Qed.

Lemma queue_le_clear (st0 st : state) (h : option positive) :
  queue_le st0 st → queue_le st0 (clearHandle h st).
Proof.
  destruct h as [i|]; [|done]. intros (Hn & Hf & Hold). unfold queue_le. cbn.
  split; [done|]. split.
  - intros h p. rewrite lookup_delete_Some. intros [_ Hp]. by eapply Hf.
  - intros h p Hlt. rewrite lookup_delete_Some. intros [_ Hp]. by apply Hold.
Qed.

Lemma queue_le_arm (st0 st : state) (cb : callback) (d : Z) (r : bool) :
  queue_le st0 st → queue_le st0 (arm cb d r st).2.
Proof.
  intros (Hn & Hf & Hold). unfold queue_le. cbn. split; [lia|]. split.
  - intros h p. rewrite lookup_insert_Some. intros [[<- _]|[_ Hp]]; [lia|].
    apply Hf in Hp. lia.
  - intros h p Hlt. rewrite lookup_insert_Some. intros [[<- _]|[_ Hp]]; [lia|].
    by apply Hold.
Qed.

Lemma queue_le_safeCleanupTimer (st0 st : state) (t : timer) :
  queue_le st0 st → queue_le st0 (safeCleanupTimer t st).
Proof.
  intros H. unfold safeCleanupTimer.
  assert (H3 : queue_le st0 (clearHandle (updateIntervalId t)
                 (clearHandle (warningTimeoutId t) (clearHandle (timeoutId t) st))))
    by (by do 3 apply queue_le_clear).
  case_decide; [done|]. eapply queue_le_same; [| |exact H3]; done.
Qed.

Lemma queue_le_armed (st st' : state) (h : option positive) :
  queue_le st st' → handle_below (nextHandle st) h →
  ¬ is_armed h st → ¬ is_armed h st'.
Proof.
  intros (_ & _ & Hold). destruct h as [i|]; [|done]. cbn.
  intros Hlt Hn [p Hp]. apply Hn. exists p. by apply Hold.
Qed.

Lemma timer_ok_le (st st' : state) (c : string) (t : timer) :
  queue_le st st' → timer_ok st c t → timer_ok st' c t.
Proof.
  intros Hle (Hc & Hw & Hp & Hb1 & Hb2 & Hb3 & Hq1 & Hq2 & Hq3 & Hpa).
  pose proof Hle as (Hn & _ & Hold).
  assert (Hb : ∀ h, handle_below (nextHandle st) h → handle_below (nextHandle st') h).
  { intros [i|]; cbn; [lia|done]. }
  assert (Hq : ∀ P h, handle_below (nextHandle st) h → queued_as P h st →
                      queued_as P h st').
  { intros P h Hlt HP i p -> Hi. apply (HP i p eq_refl). by apply Hold. }
  repeat split; try done; try (by apply Hb); try (by apply Hq); try (by apply Hp).
  - by apply Hpa.
  - eapply queue_le_armed; [done..|]. by apply Hpa.
  - eapply queue_le_armed; [done..|]. by apply Hpa.
Qed.

(** The shape shared by all transitions: old queue entries only go away,
    new ones get fresh handles, and a resident timer is either one that
    was resident, unchanged, or satisfies the invariant anew. *)
Lemma state_ok_step (st st' : state) :
  state_ok st →
  queue_le st st' →
  caps_ok st' →
  (∀ c t', activeTimers st' !! c = Some t' →
     activeTimers st !! c = Some t' ∨ timer_ok st' c t') →
  state_ok st'.
Proof.
  intros (_ & _ & Htim) Hle Hcaps Hreg.
  split; [done|]. split; [apply Hle|].
  intros c t' Ht'. destruct (Hreg c t' Ht') as [Hold|Hok]; [|done].
  eapply timer_ok_le; [done|]. by apply Htim.
Qed.

(** A transition that arms nothing and rewrites no timer. *)
Lemma state_ok_shrink (st st' : state) :
  state_ok st →
  nextHandle st' = nextHandle st →
  (∀ h p, scheduled st' !! h = Some p → scheduled st !! h = Some p) →
  (∀ c t', activeTimers st' !! c = Some t' → activeTimers st !! c = Some t') →
  state_ok st'.
Proof.
  intros Hok Hn Hsub Hreg.
  pose proof Hok as (Hcaps & Hfresh & Htim).
  assert (Hle : queue_le st st').
  { split; [lia|]. split.
    - intros h p Hp. rewrite Hn. eapply Hfresh. by apply Hsub.
    - intros h p _. apply Hsub. }
  apply (state_ok_step st st' Hok Hle).
  - revert Hcaps. apply caps_ok_mono. intros c t' Ht'. eauto.
  - intros c t' Ht'. left. by apply Hreg.
Qed.

Lemma clearHandle_sub (h : option positive) (st : state) (k : positive) (p : pending) :
  scheduled (clearHandle h st) !! k = Some p → scheduled st !! k = Some p.
Proof. destruct h as [i|]; cbn; [|done]. rewrite lookup_delete_Some. tauto. Qed.

Lemma state_ok_clearHandle (h : option positive) (st : state) :
  state_ok st → state_ok (clearHandle h st).
Proof.
  intros Hok. apply (state_ok_shrink st _ Hok).
  - by destruct h.
  - apply clearHandle_sub.
  - by destruct h.
Qed.

Lemma state_ok_clear_old_timeouts (c : string) (st : state) :
  state_ok st → state_ok (clear_old_timeouts c st).
Proof.
  unfold clear_old_timeouts. destruct (activeTimers st !! c); [|done].
  intros Hok. by do 2 apply state_ok_clearHandle.
Qed.

Lemma state_ok_delete (c : string) (st st' : state) :
  activeTimers st' = delete c (activeTimers st) →
  scheduled st' = scheduled st →
  nextHandle st' = nextHandle st →
  state_ok st → state_ok st'.
Proof.
  intros Hreg Hq Hn Hok. apply (state_ok_shrink st _ Hok Hn).
  - by rewrite Hq.
  - intros c0 t'. rewrite Hreg, lookup_delete_Some. tauto.
Qed.

Lemma state_ok_elsewhere (st st' : state) :
  activeTimers st' = activeTimers st →
  scheduled st' = scheduled st →
  nextHandle st' = nextHandle st →
  state_ok st → state_ok st'.
Proof.
  intros Hreg Hq Hn Hok. apply (state_ok_shrink st _ Hok Hn).
  - by rewrite Hq.
  - by rewrite Hreg.
Qed.

Lemma state_ok_safeCleanupTimer (t : timer) (st : state) :
  state_ok st → state_ok (safeCleanupTimer t st).
Proof.
  intros Hok. unfold safeCleanupTimer.
  assert (H3 : state_ok (clearHandle (updateIntervalId t)
                 (clearHandle (warningTimeoutId t) (clearHandle (timeoutId t) st))))
    by (by do 3 apply state_ok_clearHandle).
  case_decide; [done|]. eapply state_ok_elsewhere; [| | |exact H3]; done.
Qed.

Lemma state_ok_stopTimer (c : string) (now : Z) (st : state) :
  state_ok st → state_ok (stopTimer c now st).2.
Proof.
  intros Hok. unfold stopTimer. destruct (activeTimers st !! c) as [t|] eqn:Hc; [|done].
  cbn.
  assert (H3 : state_ok (clearHandle (updateIntervalId t)
                 (clearHandle (warningTimeoutId t) (clearHandle (timeoutId t) st))))
    by (by do 3 apply state_ok_clearHandle).
  case_decide.
  - eapply (state_ok_delete c); [| | |exact H3]; done.
  - eapply (state_ok_delete c); [| | |exact H3]; done.
Qed.

Lemma state_ok_stopAllTimersInChannel (c : string) (st : state) :
  state_ok st → state_ok (stopAllTimersInChannel c st).2.
Proof.
  intros Hok. unfold stopAllTimersInChannel.
  destruct (activeTimers st !! c) as [t|] eqn:Hc; [|done]. cbn.
  assert (H2 : state_ok (clearHandle (timeoutId t) (clearHandle (updateIntervalId t) st)))
    by (by do 2 apply state_ok_clearHandle).
  eapply (state_ok_delete c); [| | |exact H2]; done.
Qed.

Lemma state_ok_run_callback (cb : callback) (inVoice : bool) (st : state) :
  state_ok st → state_ok (run_callback cb inVoice st).2.
Proof.
  intros Hok. destruct cb as [c|c|c g|c g]; cbn; try done.
  - eapply (state_ok_delete c); [| | |exact Hok]; done.
  - eapply (state_ok_delete c); [| | |exact Hok]; done.
Qed.

Lemma state_ok_fire (h : positive) (inVoice : bool) (st : state) :
  state_ok st → state_ok (fire h inVoice st).2.
Proof.
  intros Hok. unfold fire. destruct (scheduled st !! h) as [p|]; [|done].
  destruct (prepeat p); [done|].
  apply state_ok_run_callback. by apply (state_ok_clearHandle (Some h)).
Qed.

Lemma state_ok_cleanupAllTimers (st : state) :
  state_ok st → state_ok (cleanupAllTimers st).
Proof.
  intros Hok. unfold cleanupAllTimers.
  assert (Hf : state_ok (map_fold (λ _ t acc, safeCleanupTimer t acc) st (activeTimers st))).
  { apply (map_fold_weak_ind (λ r _, state_ok r)); [done|].
    intros i x m r _ Hr. by apply state_ok_safeCleanupTimer. }
  destruct Hf as (Hcaps & Hfresh & Htim). split; [|split].
  - split; cbn.
    + rewrite map_size_empty. unfold MAX_TOTAL_TIMERS. lia.
    + intros g. unfold guildTimerCount. rewrite map_fold_empty.
      unfold MAX_TIMERS_PER_GUILD. lia.
  - done.
  - intros c t. cbn. by rewrite lookup_empty.
Qed.

Lemma state_ok_stop_guild_timers (g : string) (now : Z) (st : state) :
  state_ok st → state_ok (stop_guild_timers g now st).2.
Proof.
  intros Hok. unfold stop_guild_timers.
  apply (map_fold_weak_ind
    (λ (r : nat * state) (_ : gmap string timer), state_ok r.2)); [done|].
  intros i x m r _ Hr. case_decide; [|done].
  pose proof (state_ok_stopTimer i now r.2 Hr) as Hs.
  by destruct (stopTimer i now r.2) as [[?|] ?].
Qed.

(** Lookups in a queue to which fresh handles were added. *)
Ltac queue_cases Hq :=
  cbn in Hq; rewrite ?lookup_insert_Some in Hq;
  repeat (destruct Hq as [[? <-]|[? Hq]]; [first [lia | done]|]).

Lemma state_ok_pause_branch (c : string) (t : timer) (now nowAt nowW : Z) (st : state) :
  activeTimers st !! c = Some t →
  state_ok st → state_ok (pause_branch c t now nowAt nowW st).2.
Proof.
  intros Hc Hok. pose proof Hok as (Hcaps & Hfresh & Htim).
  set (q := clearHandle (updateIntervalId t)
              (clearHandle (warningTimeoutId t) (clearHandle (timeoutId t) st))).
  assert (Hle : queue_le st q).
  { subst q. do 3 apply queue_le_clear. by apply queue_le_refl. }
  pose proof (timer_ok_le st q c t Hle (Htim c t Hc))
    as (Kc & Kw & Kp & Kb1 & Kb2 & Kb3 & Kq1 & Kq2 & Kq3 & Kpa).
  assert (Ha1 : ¬ is_armed (timeoutId t) q).
  { subst q. do 2 apply not_armed_clear. apply clearHandle_not_armed. }
  assert (Ha3 : ¬ is_armed (updateIntervalId t) q).
  { subst q. apply clearHandle_not_armed. }
  assert (Hreg : activeTimers q = activeTimers st).
  { subst q. by destruct (updateIntervalId t), (warningTimeoutId t), (timeoutId t). }
  assert (Hst : ∃ t5,
    (pause_branch c t now nowAt nowW st).2 = set_activeTimers (<[c := t5]>) q
    ∧ channelId t5 = channelId t ∧ guildId t5 = guildId t ∧ endTime t5 = endTime t
    ∧ warningTime t5 = warningTime t ∧ timeoutId t5 = timeoutId t
    ∧ updateIntervalId t5 = updateIntervalId t ∧ warningTimeoutId t5 = None
    ∧ isPaused t5 = true ∧ is_Some (pausedRemainingTime t5)).
  { unfold pause_branch. subst q. cbn.
    destruct (warningTimeoutId t) as [hw|] eqn:Hw; cbn; rewrite ?Hw;
      (eexists; split; [reflexivity|]; cbn; repeat split; eauto). }
  destruct Hst as (t5 & -> & Ec & Eg & Ee & Ew & Eh & Ei & Ewn & Ep & Er).
  apply (state_ok_step st _ Hok); [apply (queue_le_same st q); [done|done|exact Hle]| |].
  - revert Hcaps. apply caps_ok_mono. intros c0 t'. cbn.
    rewrite lookup_insert_Some, Hreg. intros [[<- <-]|[_ H0]]; eauto.
  - intros c0 t'. cbn. rewrite lookup_insert_Some, Hreg. intros [[<- <-]|[_ H0]].
    + right. unfold timer_ok. rewrite Ec, Ee, Ew, Eh, Ei, Ewn, Ep. cbn.
      repeat split; try done.
    + by left.
Qed.

Lemma state_ok_resume_branch (c g : string) (t : timer) (now nowW : Z) (st : state) :
  activeTimers st !! c = Some t → isPaused t = true →
  state_ok st → state_ok (resume_branch c g t now nowW st).2.
Proof.
  intros Hc Hpa Hok. pose proof Hok as (Hcaps & Hfresh & Htim).
  pose proof (Htim c t Hc) as (Kc & Kw & Kp & Kb1 & Kb2 & Kb3 & Kq1 & Kq2 & Kq3 & Kpa).
  destruct (Kpa Hpa) as (Hwn & _ & _).
  unfold resume_branch. rewrite resume_remaining.
  destruct (Z.leb_spec (default 0 (pausedRemainingTime t)) 0) as [_|_].
  { eapply (state_ok_delete c); [| | |exact Hok]; done. }
  unfold setInterval, setTimeout, arm. cbn iota beta zeta.
  rewrite scheduleWarning_unfold. cbn zeta.
  cbn [warningTimeoutId with_timeoutId with_updateIntervalId with_pausedRemainingTime
       with_pausedAt with_warningRemainingTime with_warningTime with_endTime with_isPaused].
  rewrite Hwn. cbn [clearHandle].
  match goal with
  | |- context [warning_due ?t0 nowW] => destruct (warning_due t0 nowW)
  end.
  - cbn. apply (state_ok_step st _ Hok).
    + unfold queue_le. cbn. split; [lia|]. split.
      * intros h p Hq. queue_cases Hq. apply Hfresh in Hq. lia.
      * intros h p Hlt Hq. by queue_cases Hq.
    + revert Hcaps. apply caps_ok_mono. intros c0 t'. cbn.
      rewrite lookup_insert_Some. intros [[<- <-]|[_ H0]]; eauto.
    + intros c0 t'. cbn. rewrite lookup_insert_Some. intros [[<- <-]|[_ H0]]; [right|by left].
      unfold timer_ok. cbn. repeat split; try done; try lia.
      * intros i p [= <-] Hq. queue_cases Hq. apply Hfresh in Hq. lia.
      * intros i p [= <-] Hq. queue_cases Hq. apply Hfresh in Hq. lia.
      * intros i p [= <-] Hq. queue_cases Hq. apply Hfresh in Hq. lia.
  - cbn. apply (state_ok_step st _ Hok).
    + unfold queue_le. cbn. split; [lia|]. split.
      * intros h p Hq. queue_cases Hq. apply Hfresh in Hq. lia.
      * intros h p Hlt Hq. by queue_cases Hq.
    + revert Hcaps. apply caps_ok_mono. intros c0 t'. cbn.
      rewrite lookup_insert_Some. intros [[<- <-]|[_ H0]]; eauto.
    + intros c0 t'. cbn. rewrite lookup_insert_Some. intros [[<- <-]|[_ H0]]; [right|by left].
      unfold timer_ok. cbn. repeat split; try done; try lia.
      * intros i p [= <-] Hq. queue_cases Hq. apply Hfresh in Hq. lia.
      * intros i p [= <-] Hq. queue_cases Hq. apply Hfresh in Hq. lia.
Qed.

Lemma state_ok_timer_pause (c g : string) (r1 r2 r3 : Z) (st : state) :
  state_ok st → state_ok (timer_pause c g r1 r2 r3 st).2.
Proof.
  intros Hok. unfold timer_pause.
  destruct (activeTimers st !! c) as [t|] eqn:Hc; [|done].
  destruct (isPaused t) eqn:Hp.
  - by apply state_ok_resume_branch.
  - by apply state_ok_pause_branch.
Qed.

Lemma state_ok_startTimer (c g : string) (d : Z) (msg : string) (tm : option string)
    (now nowW : Z) (st : state) :
  state_ok st → state_ok (startTimer c g d msg tm now nowW st).2.
Proof.
  intros Hok. unfold startTimer.
  destruct (canCreateTimer g st) eqn:Hcan; cbn [negb]; [|done].
  set (st1 := match activeTimers st !! c with
              | Some oldTimer => safeCleanupTimer oldTimer st
              | None => st
              end).
  assert (H1 : state_ok st1 ∧ activeTimers st1 = activeTimers st).
  { subst st1. destruct (activeTimers st !! c); [|done]. split.
    - by apply state_ok_safeCleanupTimer.
    - apply safeCleanupTimer_registry. }
  destruct H1 as [Hok1 Hreg1].
  assert (Hcan1 : canCreateTimer g st1 = true)
    by (by rewrite (canCreateTimer_registry g st st1 Hreg1)).
  clearbody st1. clear Hok.
  match goal with
  | |- context [setInterval _ _ ?s] => set (st3 := s)
  end.
  assert (H3 : ∃ t0, activeTimers st3 = <[c := t0]> (activeTimers st1)
               ∧ scheduled st3 = scheduled st1 ∧ nextHandle st3 = nextHandle st1).
  { subst st3. eexists. destruct tm; [|done]. by destruct (bool_decide _). }
  destruct H3 as (t0 & Hreg3 & Hq3 & Hn3). clearbody st3.
  pose proof Hok1 as (Hcaps & Hfresh & Htim).
  unfold setInterval, setTimeout, arm. cbn iota beta zeta.
  rewrite scheduleWarning_unfold. cbn zeta.
  match goal with
  | |- context [warning_due ?t nowW] => destruct (warning_due t nowW)
  end.
  - unfold set_activeTimers. cbn. rewrite Hreg3, Hq3, Hn3, insert_insert_eq.
    apply (state_ok_step st1 _ Hok1).
    + unfold queue_le. cbn. split; [lia|]. split.
      * intros h p Hq. queue_cases Hq. apply Hfresh in Hq. lia.
      * intros h p Hlt Hq. by queue_cases Hq.
    + by eapply (caps_ok_insert c g); [exact Hcan1|reflexivity| |].
    + intros c0 t'. cbn. rewrite lookup_insert_Some. intros [[<- <-]|[_ H0]]; [right|by left].
      unfold timer_ok. cbn. repeat split; try done; try lia.
      * intros i p [= <-] Hq. queue_cases Hq. apply Hfresh in Hq. lia.
      * intros i p [= <-] Hq. queue_cases Hq. apply Hfresh in Hq. lia.
      * intros i p [= <-] Hq. queue_cases Hq. apply Hfresh in Hq. lia.
  - unfold set_activeTimers. cbn. rewrite Hreg3, Hq3, Hn3, insert_insert_eq.
    apply (state_ok_step st1 _ Hok1).
    + unfold queue_le. cbn. split; [lia|]. split.
      * intros h p Hq. queue_cases Hq. apply Hfresh in Hq. lia.
      * intros h p Hlt Hq. by queue_cases Hq.
    + by eapply (caps_ok_insert c g); [exact Hcan1|reflexivity| |].
    + intros c0 t'. cbn. rewrite lookup_insert_Some. intros [[<- <-]|[_ H0]]; [right|by left].
      unfold timer_ok. cbn. repeat split; try done; try lia.
      * intros i p [= <-] Hq. queue_cases Hq. apply Hfresh in Hq. lia.
      * intros i p [= <-] Hq. queue_cases Hq. apply Hfresh in Hq. lia.
Qed.

Lemma state_ok_initial : state_ok initial_state.
Proof.
  split; [|split].
  - split; cbn.
    + rewrite map_size_empty. unfold MAX_TOTAL_TIMERS. lia.
    + intros g. unfold guildTimerCount. rewrite map_fold_empty.
      unfold MAX_TIMERS_PER_GUILD. lia.
  - intros h p. cbn. by rewrite lookup_empty.
  - intros c t. cbn. by rewrite lookup_empty.
Qed.

Lemma state_ok_preserved (st st' : state) : step st st' → state_ok st → state_ok st'.
Proof.
  intros Hstep Hok. destruct Hstep.
  - by apply state_ok_startTimer.
  - by apply state_ok_clear_old_timeouts.
  - by apply state_ok_stopTimer.
  - by apply state_ok_timer_pause.
  - by apply state_ok_stopAllTimersInChannel.
  - by apply state_ok_cleanupAllTimers.
  - by apply (state_ok_clearHandle (Some h)).
  - by apply state_ok_run_callback.
  - by apply (state_ok_elsewhere st).
Qed.

Lemma reachable_state_ok (st : state) : reachable st → state_ok st.
Proof.
  induction 1 as [|st st' _ IH Hstep]; [apply state_ok_initial|].
  by apply (state_ok_preserved st).
Qed.

(** The handlers, run without interruption, are sequences of steps. *)
Lemma started_state (r : option timer * state) : (started r).2 = r.2.
Proof. by destruct r as [[t|] s]. Qed.


Lemma reachable_timer_start (c g : string) (messageToStore : option string)
    (now nowW : Z) (st : state) :
  reachable st → reachable (timer_start c g messageToStore now nowW st).2.
Proof.
  intros Hr. unfold timer_start. rewrite started_state.
  eapply reachable_step; [|apply step_startTimer].
  eapply reachable_step; [exact Hr|apply step_clear_old_timeouts].
Qed.

Lemma reachable_slash_timer (c g : string) (durationStr : option string) (reply : string)
    (now nowW : Z) (st : state) :
  reachable st → reachable (slash_timer c g durationStr reply now nowW st).2.
Proof.
  intros Hr.
  assert (Hreg : ∀ f, reachable (set_timerMessages f (clear_old_timeouts c st))).
  { intros f.
    eapply (reachable_step (clear_old_timeouts c st)); [|by apply step_elsewhere].
    eapply reachable_step; [exact Hr|apply step_clear_old_timeouts]. }
  unfold slash_timer. cbn zeta.
  match goal with
  | |- context [match ?x with Some _ => _ | None => (InvalidTimeFormat, st) end] =>
      destruct x as [[d|]|]; [|apply Hreg|done]
  end.
  destruct (d <=? 0); [done|]. rewrite started_state.
  eapply reachable_step; [apply Hreg|apply step_startTimer].
Qed.


Lemma reachable_fire (h : positive) (inVoice : bool) (st : state) :
  reachable st → reachable (fire h inVoice st).2.
Proof.
  intros Hr. unfold fire. destruct (scheduled st !! h) as [p|]; [|done].
  destruct (prepeat p); [done|].
  eapply reachable_step; [|apply step_run_callback].
  eapply reachable_step; [exact Hr|apply (step_timeout_due h)].
Qed.

Lemma reachable_stop_guild_timers (g : string) (now : Z) (st : state) :
  reachable st → reachable (stop_guild_timers g now st).2.
Proof.
  intros Hr. unfold stop_guild_timers.
  apply (map_fold_weak_ind
    (λ (r : nat * state) (_ : gmap string timer), reachable r.2)); [done|].
  intros i x m r _ Hrr. case_decide; [|done].
  assert (Hs : reachable (stopTimer i now r.2).2)
    by (eapply reachable_step; [exact Hrr|apply step_stopTimer]).
  by destruct (stopTimer i now r.2) as [[?|] ?].
Qed.

Lemma reachable_running_5m : reachable running_5m.
Proof. eapply reachable_step; [apply reachable_initial|apply step_startTimer]. Qed.

Lemma reachable_paused_5m : reachable paused_5m.
Proof. eapply reachable_step; [apply reachable_running_5m|apply step_timer_pause]. Qed.

Lemma reachable_full_guild : reachable full_guild.
Proof.
  unfold full_guild, ten_channels. cbn [foldr].
  repeat (eapply reachable_step; [|apply step_startTimer]). apply reachable_initial.
Qed.


(** X18: whatever the handlers do and however they interleave at their
    [await]s, the registry never holds more than [MAX_TOTAL_TIMERS]
    timers, nor more than [MAX_TIMERS_PER_GUILD] for one guild. *)
Theorem reachable_within_caps (st : state) :
  reachable st →
  (size (activeTimers st) ≤ MAX_TOTAL_TIMERS)%nat
  ∧ ∀ g, (guildTimerCount g (activeTimers st) ≤ MAX_TIMERS_PER_GUILD)%nat.
Proof. intros Hr. by destruct (reachable_state_ok st Hr) as (Hcaps & _). Qed.

Lemma reachable_within_caps_witness :
  reachable full_guild
  ∧ (size (activeTimers full_guild) ≤ MAX_TOTAL_TIMERS)%nat
  ∧ ∀ g, (guildTimerCount g (activeTimers full_guild) ≤ MAX_TIMERS_PER_GUILD)%nat.
Proof.
  refine (conj reachable_full_guild _).
  exact (reachable_within_caps full_guild reachable_full_guild).
Defined.

(** X19: in every reachable state a resident timer is paused exactly
    when it carries a stored remaining time, and a paused timer has no
    warning handle and neither its expiry nor its refresh handle is in
    the queue: nothing fires for a timer while it is paused. *)
Theorem reachable_paused_quiet (st : state) (c : string) (t : timer) :
  reachable st → activeTimers st !! c = Some t →
  (isPaused t = true ↔ is_Some (pausedRemainingTime t))
  ∧ (isPaused t = true →
     warningTimeoutId t = None
     ∧ ¬ is_armed (timeoutId t) st
     ∧ ¬ is_armed (updateIntervalId t) st).
Proof.
  intros Hr Hc. destruct (reachable_state_ok st Hr) as (_ & _ & Htim).
  by destruct (Htim c t Hc) as (_ & _ & Hp & _ & _ & _ & _ & _ & _ & Hq).
Qed.

Lemma reachable_paused_quiet_witness :
  isPaused timer_5m_paused = true
  ∧ (isPaused timer_5m_paused = true ↔ is_Some (pausedRemainingTime timer_5m_paused))
  ∧ (isPaused timer_5m_paused = true →
     warningTimeoutId timer_5m_paused = None
     ∧ ¬ is_armed (timeoutId timer_5m_paused) paused_5m
     ∧ ¬ is_armed (updateIntervalId timer_5m_paused) paused_5m).
Proof.
  refine (conj eq_refl _).
  exact (reachable_paused_quiet paused_5m "c1" timer_5m_paused
           reachable_paused_5m paused_5m_resident).
Defined.



(** X21: in every reachable state a handle kept in a resident timer,
    as long as it is queued, names a closure of the kind the field is
    for, armed for the timer's own channel: [timeoutId] an expiry
    closure, [warningTimeoutId] a warning closure, [updateIntervalId] a
    refresh closure. *)
Theorem reachable_handles_typed (st : state) (c : string) (t : timer)
    (h : positive) (p : pending) :
  reachable st → activeTimers st !! c = Some t → scheduled st !! h = Some p →
  (timeoutId t = Some h → expiry_of c (pcallback p))
  ∧ (warningTimeoutId t = Some h → warning_of c (pcallback p))
  ∧ (updateIntervalId t = Some h → refresh_of c (pcallback p)).
Proof.
  intros Hr Hc Hp. destruct (reachable_state_ok st Hr) as (_ & _ & Htim).
  destruct (Htim c t Hc) as (_ & _ & _ & _ & _ & _ & Hq1 & Hq2 & Hq3 & _).
  repeat split; intros Hh; [by apply (Hq1 h p)|by apply (Hq2 h p)|by apply (Hq3 h p)].
Qed.

Lemma reachable_handles_typed_witness :
  scheduled running_5m !! 3%positive = Some (mkPending (ExpiryCb "c1" "g1") 300000 false)
  ∧ (timeoutId timer_5m = Some 3%positive →
     expiry_of "c1" (pcallback (mkPending (ExpiryCb "c1" "g1") 300000 false)))
  ∧ (warningTimeoutId timer_5m = Some 3%positive →
     warning_of "c1" (pcallback (mkPending (ExpiryCb "c1" "g1") 300000 false)))
  ∧ (updateIntervalId timer_5m = Some 3%positive →
     refresh_of "c1" (pcallback (mkPending (ExpiryCb "c1" "g1") 300000 false))).
Proof.
  assert (Hq : scheduled running_5m !! 3%positive
               = Some (mkPending (ExpiryCb "c1" "g1") 300000 false))
    by (vm_compute; reflexivity).
  refine (conj Hq _).
  exact (reachable_handles_typed running_5m "c1" timer_5m 3 _
           reachable_running_5m running_5m_resident Hq).
Defined.

(** X22: in every reachable state two timers resident on different
    channels share no queued handle, whatever fields hold it: cancelling
    the handles of one timer never cancels a closure of another. *)
Theorem reachable_handles_not_shared (st : state) (c1 c2 : string) (t1 t2 : timer)
    (h : positive) :
  reachable st →
  activeTimers st !! c1 = Some t1 → activeTimers st !! c2 = Some t2 →
  c1 ≠ c2 →
  is_armed (Some h) st →
  Some h ∈ [timeoutId t1; warningTimeoutId t1; updateIntervalId t1] →
  Some h ∉ [timeoutId t2; warningTimeoutId t2; updateIntervalId t2].
Proof.
  intros Hr H1 H2 Hne [p Hp] Hin1 Hin2. apply Hne.
  destruct (reachable_state_ok st Hr) as (_ & _ & Htim).
  destruct (Htim c1 t1 H1) as (_ & _ & _ & _ & _ & _ & Ha1 & Ha2 & Ha3 & _).
  destruct (Htim c2 t2 H2) as (_ & _ & _ & _ & _ & _ & Hb1 & Hb2 & Hb3 & _).
  assert (K1 : expiry_of c1 (pcallback p) ∨ warning_of c1 (pcallback p)
               ∨ refresh_of c1 (pcallback p)).
  { rewrite !elem_of_cons, elem_of_nil in Hin1.
    destruct Hin1 as [E|[E|[E|[]]]]; symmetry in E;
      [left; by apply (Ha1 h p)|right; left; by apply (Ha2 h p)
      |right; right; by apply (Ha3 h p)]. }
  assert (K2 : expiry_of c2 (pcallback p) ∨ warning_of c2 (pcallback p)
               ∨ refresh_of c2 (pcallback p)).
  { rewrite !elem_of_cons, elem_of_nil in Hin2.
    destruct Hin2 as [E|[E|[E|[]]]]; symmetry in E;
      [left; by apply (Hb1 h p)|right; left; by apply (Hb2 h p)
      |right; right; by apply (Hb3 h p)]. }
  destruct (pcallback p); cbn in K1, K2;
    destruct K1 as [K1|[K1|K1]]; destruct K2 as [K2|[K2|K2]]; congruence || done.
Qed.

Lemma reachable_handles_not_shared_witness :
  ∃ t4, activeTimers full_guild !! "c4"%string = Some t4
        ∧ Some 21%positive ∉ [timeoutId t4; warningTimeoutId t4; updateIntervalId t4].
Proof.
  assert (H4 : ∃ t4, activeTimers full_guild !! "c4"%string = Some t4)
    by (vm_compute; eauto).
  destruct H4 as [t4 H4]. exists t4. refine (conj H4 _).
  assert (Ha : is_armed (Some 21%positive) full_guild) by (vm_compute; eauto).
  refine (reachable_handles_not_shared full_guild "c3" "c4" timer_c3 t4 21
            reachable_full_guild full_guild_c3 H4 _ Ha _); [done|].
  apply list_elem_of_here.
Defined.

(** What [startTimer] leaves in the queue for the timer it stores. *)
Lemma startTimer_queued (c g : string) (d : Z) (msg : string) (tm : option string)
    (now nowW : Z) (st : state) :
  canCreateTimer g st = true →
  ∃ t hT hI,
    (startTimer c g d msg tm now nowW st).1 = Some t
    ∧ activeTimers (startTimer c g d msg tm now nowW st).2 !! c = Some t
    ∧ timeoutId t = Some hT ∧ updateIntervalId t = Some hI
    ∧ scheduled (startTimer c g d msg tm now nowW st).2 !! hT
      = Some (mkPending (ExpiryCb c g) d false)
    ∧ scheduled (startTimer c g d msg tm now nowW st).2 !! hI
      = Some (mkPending (RefreshCb c) 1000 true).
Proof.
  intros Hcan. unfold startTimer. rewrite Hcan. cbn [negb].
  match goal with
  | |- context [setInterval _ _ ?s] => generalize s
  end.
  intros st3. unfold setInterval, setTimeout, arm. cbn iota beta zeta.
  rewrite scheduleWarning_unfold. cbn zeta.
  match goal with
  | |- context [warning_due ?t nowW] => destruct (warning_due t nowW)
  end.
  - do 3 eexists. cbn. rewrite lookup_insert_eq.
    split; [reflexivity|]. split; [reflexivity|]. split; [reflexivity|].
    split; [reflexivity|]. split.
    + by rewrite lookup_insert_eq.
    + rewrite !lookup_insert_ne by lia. by rewrite lookup_insert_eq.
  - do 3 eexists. cbn. rewrite lookup_insert_eq.
    split; [reflexivity|]. split; [reflexivity|]. split; [reflexivity|].
    split; [reflexivity|]. split.
    + by rewrite lookup_insert_eq.
    + rewrite !lookup_insert_ne by lia. by rewrite lookup_insert_eq.
Qed.

(** X23: the cleanup at the end of an expiry closure deletes whatever
    timer is resident on its channel and cancels nothing.  The closure
    awaits [channel.send] first, so a timer started on the channel in the
    meantime is the one that is removed: it leaves the registry while
    its own expiry and refresh closures stay queued. *)
Theorem late_cleanup_orphans_timer (c g g0 : string) (d : Z) (msg : string)
    (tm : option string) (now nowW : Z) (inVoice : bool) (st : state) :
  canCreateTimer g st = true →
  ∃ t hT hI,
    (startTimer c g d msg tm now nowW st).1 = Some t
    ∧ timeoutId t = Some hT ∧ updateIntervalId t = Some hI
    ∧ activeTimers
        (run_callback (ExpiryCb c g0) inVoice (startTimer c g d msg tm now nowW st).2).2
      !! c = None
    ∧ scheduled
        (run_callback (ExpiryCb c g0) inVoice (startTimer c g d msg tm now nowW st).2).2
      !! hT = Some (mkPending (ExpiryCb c g) d false)
    ∧ scheduled
        (run_callback (ExpiryCb c g0) inVoice (startTimer c g d msg tm now nowW st).2).2
      !! hI = Some (mkPending (RefreshCb c) 1000 true).
Proof.
  intros Hcan.
  destruct (startTimer_queued c g d msg tm now nowW st Hcan)
    as (t & hT & hI & Ht & _ & HhT & HhI & HqT & HqI).
  exists t, hT, hI. split; [done|]. split; [done|]. split; [done|]. cbn.
  split; [apply lookup_delete_eq|]. by split.
Qed.

Lemma late_cleanup_orphans_timer_witness :
  ∃ t hT hI,
    (startTimer "c1" "g1" 300000 "Timer: 5m" None 1000 1000 initial_state).1 = Some t
    ∧ timeoutId t = Some hT ∧ updateIntervalId t = Some hI
    ∧ activeTimers
        (run_callback (ExpiryCb "c1" "g1") false
           (startTimer "c1" "g1" 300000 "Timer: 5m" None 1000 1000 initial_state).2).2
      !! "c1"%string = None
    ∧ scheduled
        (run_callback (ExpiryCb "c1" "g1") false
           (startTimer "c1" "g1" 300000 "Timer: 5m" None 1000 1000 initial_state).2).2
      !! hT = Some (mkPending (ExpiryCb "c1" "g1") 300000 false)
    ∧ scheduled
        (run_callback (ExpiryCb "c1" "g1") false
           (startTimer "c1" "g1" 300000 "Timer: 5m" None 1000 1000 initial_state).2).2
      !! hI = Some (mkPending (RefreshCb "c1") 1000 true).
Proof.
  apply (late_cleanup_orphans_timer "c1" "g1" "g1" 300000 "Timer: 5m" None 1000 1000
           false initial_state).
  reflexivity.
Defined.

End Invariant.
